(** * The WasmEdge stack manager (runtime/stackmgr.h)

    A shallow embedding of [WasmEdge::Runtime::StackManager]: the operand
    stack [ValueStack], its parallel stack of width tags [TypeStack] and the
    stack of call frames [FrameStack], with the operations of the class as
    state transformers that fail where the C++ code leaves its contract
    ([assuming] is false, [back] or [pop_back] of an empty vector, [erase] of
    a range that is not one of the vector). *)

From Stdlib Require Import ZArith Lia Eqdep_dec.
From stdpp Require Import base option list.

Local Open Scope Z_scope.

(** ** Fixed-width unsigned integers

    [uint8_t], [uint32_t]: a value of [UInt.t w] is an integer that its own
    wrap-around modulo [2 ^ w] leaves alone. *)

Module UInt.

Definition wrap (w z : Z) : Z := z mod 2 ^ w.

Record t (w : Z) : Type := mk { to_Z : Z; wrapped : wrap w to_Z = to_Z }.

Arguments mk {w} _ _.
Arguments to_Z {w} _.
Arguments wrapped {w} _.

(** Conversion to the type, as a C++ integral conversion does it. *)
Definition of_Z (w z : Z) : t w := mk (wrap w z) (Zmod_mod z (2 ^ w)).

Definition sub {w} (a b : t w) : t w := of_Z w (to_Z a - to_Z b).

Definition leb {w} (a b : t w) : bool := to_Z a <=? to_Z b.

#[global] Arguments wrap : simpl never.
#[global] Arguments of_Z : simpl never.
#[global] Arguments sub : simpl never.
#[global] Arguments leb : simpl never.

End UInt.

Abbreviation uint8_t := (UInt.t 8).
Abbreviation uint32_t := (UInt.t 32).

(** [size_t] is 64 bits wide (the runtime targets 64-bit hosts); a
    subtraction of two [size_t] wraps around. *)
Definition size_t_sub (a b : Z) : Z := UInt.wrap 64 (a - b).

#[global] Arguments size_t_sub : simpl never.

(** ** std::vector

    A vector is the list of its elements, front first; an iterator is its
    distance from [begin()]. *)

Module vector.
Section defs.
Context {A : Type}.

Definition size (v : list A) : Z := Z.of_nat (length v).

Definition empty (v : list A) : bool := if v is [] then true else false.

Definition begin (v : list A) : Z := 0.

Definition end_ (v : list A) : Z := size v.

Definition back (v : list A) : option A := last v.

Definition push_back (v : list A) (x : A) : list A := v ++ [x].

Definition pop_back (v : list A) : option (list A) :=
  if empty v then None else Some (removelast v).

(** [v.erase(first, last)] needs [first, last) to be a range of [v]. *)
Definition erase (v : list A) (first last : Z) : option (list A) :=
  if (0 <=? first) && (first <=? last) && (last <=? size v)
  then Some (take (Z.to_nat first) v ++ drop (Z.to_nat last) v)
  else None.

Definition clear (v : list A) : list A := [].

(** [v.back() = f(v.back())]: assignment through the reference [back()]
    returns. *)
Definition update_back (f : A -> A) (v : list A) : option (list A) :=
  match last v with
  | Some x => Some (removelast v ++ [f x])
  | None => None
  end.

(** [Span<T>(first, count)] with [first] an iterator of [v]: the view of
    [count] entries from [first] on, which have to be entries of [v]. *)
Definition span (v : list A) (first count : Z) : option (list A) :=
  if (0 <=? first) && (first + count <=? size v)
  then Some (take (Z.to_nat count) (drop (Z.to_nat first) v))
  else None.

End defs.

#[global] Arguments size : simpl never.
#[global] Arguments back : simpl never.
#[global] Arguments push_back : simpl never.
#[global] Arguments pop_back : simpl never.
#[global] Arguments erase : simpl never.
#[global] Arguments update_back : simpl never.
End vector.

(** ** The VM driver (lib/vm/vm.cpp)

    [SSVM::VM::VM] runs a module: it registers the host functions of its
    environment, runs the loader, runs the executor when the loader
    succeeded, and clears its engines. The loader and executor engines, the
    result record, the configuration and the member template
    [setHostFunction] are declared in headers that are not among the
    sources: they are parameters, each method acting on its own object and
    on the arguments it takes by reference. *)

From Stdlib Require Strings.String.

Module VM.
Import Stdlib.Strings.String.StringSyntax.
Local Open Scope string_scope.

(** An enumeration of status codes with a member [Success], which is what
    the template [testAndSetError] asks of its [T]; [status_code] is the
    [static_cast<unsigned int>]. *)
Record StatusEnum : Type := Build_StatusEnum
  { status :> Type;
    status_Success : status;
    status_eq_dec : forall x y : status, {x = y} + {x <> y};
    status_code : status -> Z }.

Class Collaborators : Type := Build_Collaborators
  { ErrCode : Type;
    Success : ErrCode;
    Failed : ErrCode;
    ErrCode_eq_dec : forall x y : ErrCode, {x = y} + {x <> y};
    Failed_not_Success : Failed <> Success;
    Configure : Type;
    VMType : Type;
    Ewasm : VMType;
    Wasi : VMType;
    VMType_eq_dec : forall x y : VMType, {x = y} + {x <> y};
    Configure_getVMType : Configure -> VMType;
    Configure_getStartFuncName : Configure -> String.string;
    Result : Type;
    Stage : Type;
    Stage_Loader : Stage;
    Stage_Executor : Stage;
    Result_setStage : Stage -> Result -> Result;
    Result_setErrCode : Z -> Result -> Result;
    Result_hasError : Result -> bool;
    AstModule : Type;
    Loader : Type;
    Loader_ErrCode : StatusEnum;
    Loader_setPath : String.string -> Loader -> Loader_ErrCode * Loader;
    Loader_parseModule : Loader -> Loader_ErrCode * Loader;
    Loader_validateModule : Loader -> Loader_ErrCode * Loader;
    Loader_getModule :
      option AstModule -> Loader -> Loader_ErrCode * (Loader * option AstModule);
    Loader_reset : Loader -> Loader;
    Arg : Type;
    Executor : Type;
    Executor_ErrCode : StatusEnum;
    Executor_setStartFuncName : String.string -> Executor -> Executor;
    Executor_setModule :
      option AstModule -> Executor ->
      Executor_ErrCode * (Executor * option AstModule);
    Executor_instantiate : Executor -> Executor_ErrCode * Executor;
    Executor_setArgs :
      list Arg -> Executor -> Executor_ErrCode * (Executor * list Arg);
    Executor_run : Executor -> Executor_ErrCode * Executor;
    Executor_reset : Executor -> Executor }.

(** The host function objects [prepareVMHost] creates, by class. *)
Inductive HostFunction : Type :=
  | EEICallDataCopy | EEICallStatic | EEIFinish | EEIGetCallDataSize
  | EEIGetCaller | EEIReturnDataCopy | EEIRevert | EEIStorageLoad
  | EEIStorageStore
  | WasiArgsGet | WasiArgsSizesGet | WasiEnvironGet | WasiEnvironSizesGet
  | WasiFdClose | WasiFdFdstatGet | WasiFdFdstatSetFlags
  | WasiFdPrestatDirName | WasiFdPrestatGet | WasiFdRead | WasiFdSeek
  | WasiFdWrite | WasiPathOpen | WasiProcExit.

Section driver.
Context `{Collaborators}.

(** The members of the VM that the functions of [vm.cpp] read and write;
    the environment they only hand on is left out. *)
Record VM : Type := Build_VM
  { Config : Configure;
    WasmPath : String.string;
    LoaderEngine : Loader;
    ExecutorEngine : Executor;
    Mod : option AstModule;
    Args : list Arg;
    VMResult : Result }.

Definition set_WasmPath (p : String.string) (vm : VM) : VM :=
  Build_VM (Config vm) p (LoaderEngine vm) (ExecutorEngine vm) (Mod vm)
           (Args vm) (VMResult vm).

Definition set_LoaderEngine (l : Loader) (vm : VM) : VM :=
  Build_VM (Config vm) (WasmPath vm) l (ExecutorEngine vm) (Mod vm)
           (Args vm) (VMResult vm).

Definition set_ExecutorEngine (e : Executor) (vm : VM) : VM :=
  Build_VM (Config vm) (WasmPath vm) (LoaderEngine vm) e (Mod vm)
           (Args vm) (VMResult vm).

Definition set_Mod (m : option AstModule) (vm : VM) : VM :=
  Build_VM (Config vm) (WasmPath vm) (LoaderEngine vm) (ExecutorEngine vm) m
           (Args vm) (VMResult vm).

Definition set_Args (a : list Arg) (vm : VM) : VM :=
  Build_VM (Config vm) (WasmPath vm) (LoaderEngine vm) (ExecutorEngine vm)
           (Mod vm) a (VMResult vm).

Definition set_VMResult (r : Result) (vm : VM) : VM :=
  Build_VM (Config vm) (WasmPath vm) (LoaderEngine vm) (ExecutorEngine vm)
           (Mod vm) (Args vm) r.

(** The member template [setHostFunction] of [vm.h]. *)
Variable setHostFunction :
  HostFunction -> String.string -> String.string -> VM -> ErrCode * VM.

(** [detail::testAndSetError]. *)
Definition testAndSetError {T : StatusEnum} (Status : T) (R : Result) :
    bool * Result :=
  if status_eq_dec T Status (status_Success T)
  then (false, R)
  else (true, Result_setErrCode (status_code T Status) R).

(** [if (detail::testAndSetError(Status, VMResult)) return ErrCode::Failed;]
    followed by the rest of the function. *)
Definition or_fail {T : StatusEnum} (Status : T) (rest : VM -> ErrCode * VM)
    (vm : VM) : ErrCode * VM :=
  let '(err, r) := testAndSetError Status (VMResult vm) in
  if err then (Failed, set_VMResult r vm) else rest (set_VMResult r vm).

(** The tail of [runLoader] and [runExecutor]. *)
Definition by_hasError (vm : VM) : ErrCode * VM :=
  if Result_hasError (VMResult vm) then (Failed, vm) else (Success, vm).

Definition setPath (FilePath : String.string) (vm : VM) : ErrCode * VM :=
  (Success, set_WasmPath FilePath vm).

Definition runLoader (vm : VM) : ErrCode * VM :=
  let vm := set_VMResult (Result_setStage Stage_Loader (VMResult vm)) vm in
  let '(st, l) := Loader_setPath (WasmPath vm) (LoaderEngine vm) in
  or_fail st (fun vm =>
    let '(st, l) := Loader_parseModule (LoaderEngine vm) in
    or_fail st (fun vm =>
      let '(st, l) := Loader_validateModule (LoaderEngine vm) in
      or_fail st (fun vm =>
        let '(st, (l, m)) := Loader_getModule (Mod vm) (LoaderEngine vm) in
        or_fail st by_hasError (set_Mod m (set_LoaderEngine l vm)))
      (set_LoaderEngine l vm))
    (set_LoaderEngine l vm))
  (set_LoaderEngine l vm).

Definition runExecutor (vm : VM) : ErrCode * VM :=
  let vm := set_VMResult (Result_setStage Stage_Executor (VMResult vm)) vm in
  let vm := set_ExecutorEngine
              (Executor_setStartFuncName
                 (Configure_getStartFuncName (Config vm)) (ExecutorEngine vm))
              vm in
  let '(st, (e, m)) := Executor_setModule (Mod vm) (ExecutorEngine vm) in
  or_fail st (fun vm =>
    let '(st, e) := Executor_instantiate (ExecutorEngine vm) in
    or_fail st (fun vm =>
      let '(st, (e, a)) := Executor_setArgs (Args vm) (ExecutorEngine vm) in
      or_fail st (fun vm =>
        let '(st, e) := Executor_run (ExecutorEngine vm) in
        or_fail st by_hasError (set_ExecutorEngine e vm))
      (set_Args a (set_ExecutorEngine e vm)))
    (set_ExecutorEngine e vm))
  (set_Mod m (set_ExecutorEngine e vm)).

(** [if (Status == ErrCode::Success) Status = setHostFunction(F, M, N);] *)
Definition register (acc : ErrCode * VM)
    (entry : HostFunction * (String.string * String.string)) : ErrCode * VM :=
  if ErrCode_eq_dec (fst acc) Success
  then setHostFunction (fst entry) (fst (snd entry)) (snd (snd entry)) (snd acc)
  else acc.

(** The registrations of the Ewasm and of the Wasi branch, in the order of
    the source. *)
Definition EEI_functions : list (HostFunction * (String.string * String.string)) :=
  [ (EEICallDataCopy, ("ethereum", "callDataCopy"));
    (EEICallStatic, ("ethereum", "callStatic"));
    (EEIFinish, ("ethereum", "finish"));
    (EEIGetCallDataSize, ("ethereum", "getCallDataSize"));
    (EEIGetCaller, ("ethereum", "getCaller"));
    (EEIReturnDataCopy, ("ethereum", "returnDataCopy"));
    (EEIRevert, ("ethereum", "revert"));
    (EEIStorageLoad, ("ethereum", "storageLoad"));
    (EEIStorageStore, ("ethereum", "storageStore")) ].

Definition Wasi_functions : list (HostFunction * (String.string * String.string)) :=
  [ (WasiArgsGet, ("wasi_unstable", "args_get"));
    (WasiArgsSizesGet, ("wasi_unstable", "args_sizes_get"));
    (WasiEnvironGet, ("wasi_unstable", "environ_get"));
    (WasiEnvironSizesGet, ("wasi_unstable", "environ_sizes_get"));
    (WasiFdClose, ("wasi_unstable", "fd_close"));
    (WasiFdFdstatGet, ("wasi_unstable", "fd_fdstat_get"));
    (WasiFdFdstatSetFlags, ("wasi_unstable", "fd_fdstat_set_flags"));
    (WasiFdPrestatDirName, ("wasi_unstable", "fd_prestat_dir_name"));
    (WasiFdPrestatGet, ("wasi_unstable", "fd_prestat_get"));
    (WasiFdRead, ("wasi_unstable", "fd_read"));
    (WasiFdSeek, ("wasi_unstable", "fd_seek"));
    (WasiFdWrite, ("wasi_unstable", "fd_write"));
    (WasiPathOpen, ("wasi_unstable", "path_open"));
    (WasiProcExit, ("wasi_unstable", "proc_exit")) ].

Definition prepareVMHost (vm : VM) : ErrCode * VM :=
  let Type_ := Configure_getVMType (Config vm) in
  if VMType_eq_dec Type_ Ewasm then
    fold_left register EEI_functions (Success, vm)
  else if VMType_eq_dec Type_ Wasi then
    fold_left register Wasi_functions (Success, vm)
  else (Success, vm).

(** Clear loader and executor engine. *)
Definition clear_engines (vm : VM) : VM :=
  Build_VM (Config vm) (WasmPath vm) (Loader_reset (LoaderEngine vm))
           (Executor_reset (ExecutorEngine vm)) None [] (VMResult vm).

Definition execute (vm : VM) : ErrCode * VM :=
  let '(_, vm) := prepareVMHost vm in
  let '(Status, vm) := runLoader vm in
  let '(Status, vm) :=
    if ErrCode_eq_dec Status Success then runExecutor vm else (Status, vm) in
  (Status, clear_engines vm).

End driver.
End VM.

(** ** The stack manager *)

Section StackManager.

(** What the header takes from the rest of the runtime: [ValVariant], the
    pointer to a module instance, the instruction iterator and the flag
    [isLast()] of the instruction it points to. *)
Context {Value ModuleInstance Iterator : Type}.
Variable isLast : Iterator -> bool.

Record Frame : Type := Build_Frame
  { Module : ModuleInstance; From : Iterator;
    Locals : uint32_t; Arity : uint32_t; VPos : uint32_t }.

Record StackManager : Type := Build_StackManager
  { ValueStack : list Value;
    TypeStack : list uint8_t;
    FrameStack : list Frame }.

Definition set_ValueStack (vs : list Value) (s : StackManager) : StackManager :=
  Build_StackManager vs (TypeStack s) (FrameStack s).

Definition set_TypeStack (ts : list uint8_t) (s : StackManager) : StackManager :=
  Build_StackManager (ValueStack s) ts (FrameStack s).

Definition set_FrameStack (fs : list Frame) (s : StackManager) : StackManager :=
  Build_StackManager (ValueStack s) (TypeStack s) fs.

(** The constructor reserves capacity only: all three vectors start empty. *)
Definition new_StackManager : StackManager := Build_StackManager [] [] [].

(** *** Member functions as state transformers

    [None] is a contract violation: the behaviour the class calls unsafe. *)

Definition M (A : Type) : Type := StackManager -> option (A * StackManager).

Definition ret {A} (a : A) : M A := fun s => Some (a, s).

Definition bind {A B} (m : M A) (k : A -> M B) : M B :=
  fun s => match m s with Some (a, s') => k a s' | None => None end.

Notation "x <- m ;; k" := (bind m (fun x => k))
  (at level 100, m at next level, right associativity).
Notation "m ;; k" := (bind m (fun _ => k))
  (at level 100, right associativity).

Definition gets {A} (f : StackManager -> A) : M A := fun s => Some (f s, s).

Definition modify (f : StackManager -> StackManager) : M unit :=
  fun s => Some (tt, f s).

(** A member call that is undefined on some vectors. *)
Definition try_ {A} (f : StackManager -> option A) : M A :=
  fun s => match f s with Some a => Some (a, s) | None => None end.

Definition try_modify (f : StackManager -> option StackManager) : M unit :=
  fun s => match f s with Some s' => Some (tt, s') | None => None end.

(** Modelled from the spec: the macro [assuming] of the runtime's common
    headers, which are not among the sources. A call with an unmet
    precondition is a contract violation, fatal to the execution and never
    ignored: the transformer fails. *)
Definition assuming (c : bool) : M unit :=
  fun s => if c then Some (tt, s) else None.

Definition ValueStack_erase (first last : Z) : M unit :=
  try_modify (fun s => vs ← vector.erase (ValueStack s) first last;
                       Some (set_ValueStack vs s)).

Definition TypeStack_erase (first last : Z) : M unit :=
  try_modify (fun s => ts ← vector.erase (TypeStack s) first last;
                       Some (set_TypeStack ts s)).

(** Getter of stack size. *)
Definition size (s : StackManager) : Z := vector.size (ValueStack s).

(** Unsafe getter of top entry of stack. *)
Definition getTop : M Value := try_ (fun s => vector.back (ValueStack s)).

(** Unsafe getter of top N-th value entry of stack. *)
Definition getTopN (Offset : uint32_t) : M Value :=
  n <- gets size;;
  assuming ((0 <? UInt.to_Z Offset) && (UInt.to_Z Offset <=? n));;
  try_ (fun s => ValueStack s !! Z.to_nat (n - UInt.to_Z Offset)).

Definition getTypeTopN (Offset : uint32_t) : M uint8_t :=
  n <- gets (fun s => vector.size (TypeStack s));;
  assuming ((0 <? UInt.to_Z Offset) && (UInt.to_Z Offset <=? n));;
  try_ (fun s => TypeStack s !! Z.to_nat (n - UInt.to_Z Offset)).

Definition getTypeTop : M uint8_t := try_ (fun s => vector.back (TypeStack s)).

(** The tag the one-argument [push] derives from [sizeof(T)]. *)
Definition tag_of_sizeof (t : Z) : uint8_t :=
  if t =? 4 then UInt.of_Z 8 0
  else if t =? 8 then UInt.of_Z 8 1
  else UInt.of_Z 8 2.

(** Push a new value entry to stack: [push<T>(Val)], with [sizeofT] the
    [sizeof(T)] of the instantiation and [Val] converted to [Value]. *)
Definition push (sizeofT : Z) (Val : Value) : M unit :=
  modify (fun s => set_ValueStack (vector.push_back (ValueStack s) Val) s);;
  modify (fun s => set_TypeStack
                     (vector.push_back (TypeStack s) (tag_of_sizeof sizeofT)) s).

(** [push(Val, Typ)]. *)
Definition push_typed (Val : Value) (Typ : uint8_t) : M unit :=
  modify (fun s => set_ValueStack (vector.push_back (ValueStack s) Val) s);;
  modify (fun s => set_TypeStack (vector.push_back (TypeStack s) Typ) s).

(** Unsafe pop and return the top entry. *)
Definition pop : M Value :=
  V <- try_ (fun s => vector.back (ValueStack s));;
  try_modify (fun s => vs ← vector.pop_back (ValueStack s);
                       Some (set_ValueStack vs s));;
  try_modify (fun s => ts ← vector.pop_back (TypeStack s);
                       Some (set_TypeStack ts s));;
  ret V.

(** Push a new frame entry to stack. *)
Definition pushFrame (Mod : ModuleInstance) (FromIt : Iterator)
    (LocalNum Arity_ : uint32_t) (IsTailCall : bool) : M unit :=
  if negb IsTailCall then
    n <- gets size;;
    modify (fun s => set_FrameStack
      (vector.push_back (FrameStack s)
         (Build_Frame Mod FromIt LocalNum Arity_ (UInt.of_Z 32 n))) s)
  else
    e <- gets (fun s => vector.empty (FrameStack s));;
    assuming (negb e);;
    top <- try_ (fun s => vector.back (FrameStack s));;
    assuming (UInt.leb (Locals top) (VPos top));;
    n <- gets size;;
    assuming (UInt.to_Z (UInt.sub (VPos top) (Locals top))
              <=? size_t_sub n (UInt.to_Z LocalNum));;
    vs <- gets ValueStack;;
    ValueStack_erase
      (vector.begin vs + UInt.to_Z (VPos top) - UInt.to_Z (Locals top))
      (vector.end_ vs - UInt.to_Z LocalNum);;
    ts <- gets TypeStack;;
    TypeStack_erase
      (vector.begin ts + UInt.to_Z (VPos top) - UInt.to_Z (Locals top))
      (vector.end_ ts - UInt.to_Z LocalNum);;
    n' <- gets size;;
    try_modify (fun s =>
      fs ← vector.update_back
             (fun f => Build_Frame Mod (From f) LocalNum Arity_ (UInt.of_Z 32 n'))
             (FrameStack s);
      Some (set_FrameStack fs s)).

(** Unsafe pop top frame. *)
Definition popFrame : M Iterator :=
  e <- gets (fun s => vector.empty (FrameStack s));;
  assuming (negb e);;
  top <- try_ (fun s => vector.back (FrameStack s));;
  assuming (UInt.leb (Locals top) (VPos top));;
  n <- gets size;;
  assuming (UInt.to_Z (UInt.sub (VPos top) (Locals top))
            <=? size_t_sub n (UInt.to_Z (Arity top)));;
  vs <- gets ValueStack;;
  ValueStack_erase
    (vector.begin vs + UInt.to_Z (VPos top) - UInt.to_Z (Locals top))
    (vector.end_ vs - UInt.to_Z (Arity top));;
  ts <- gets TypeStack;;
  TypeStack_erase
    (vector.begin ts + UInt.to_Z (VPos top) - UInt.to_Z (Locals top))
    (vector.end_ ts - UInt.to_Z (Arity top));;
  top' <- try_ (fun s => vector.back (FrameStack s));;
  try_modify (fun s => fs ← vector.pop_back (FrameStack s);
                       Some (set_FrameStack fs s));;
  ret (From top').

(** Unsafe erase stack. *)
Definition stackErase (EraseBegin EraseEnd : uint32_t) : M unit :=
  n <- gets size;;
  assuming (UInt.leb EraseEnd EraseBegin && (UInt.to_Z EraseBegin <=? n));;
  nt <- gets (fun s => vector.size (TypeStack s));;
  assuming (UInt.leb EraseEnd EraseBegin && (UInt.to_Z EraseBegin <=? nt));;
  vs <- gets ValueStack;;
  ValueStack_erase (vector.end_ vs - UInt.to_Z EraseBegin)
                   (vector.end_ vs - UInt.to_Z EraseEnd);;
  ts <- gets TypeStack;;
  TypeStack_erase (vector.end_ ts - UInt.to_Z EraseBegin)
                  (vector.end_ ts - UInt.to_Z EraseEnd).

(** Unsafe leave top label. *)
Definition maybePopFrame (PC : Iterator) : M Iterator :=
  k <- gets (fun s => vector.size (FrameStack s));;
  if (1 <? k) && isLast PC then popFrame else ret PC.

(** Unsafe getter of module address. *)
Definition getModule : M ModuleInstance :=
  e <- gets (fun s => vector.empty (FrameStack s));;
  assuming (negb e);;
  top <- try_ (fun s => vector.back (FrameStack s));;
  ret (Module top).

(** Reset stack. *)
Definition reset : M unit :=
  modify (fun s => set_ValueStack (vector.clear (ValueStack s)) s);;
  modify (fun s => set_FrameStack (vector.clear (FrameStack s)) s).

(** The bulk getters return their vector by value, the setters assign the
    vector they receive by value. *)
Definition getFrameStack : M (list Frame) := gets FrameStack.
Definition getValueStack : M (list Value) := gets ValueStack.
Definition getTypeStack : M (list uint8_t) := gets TypeStack.

Definition setFrameStack (fs : list Frame) : M unit := modify (set_FrameStack fs).
Definition setValueStack (vs : list Value) : M unit := modify (set_ValueStack vs).
Definition setTypeStack (ts : list uint8_t) : M unit := modify (set_TypeStack ts).

(** *** Sequences of calls

    The operand operations a client can issue, and a run of them. *)

Inductive operand_op : Type :=
  | OpPush (sizeofT : Z) (Val : Value)
  | OpPushTyped (Val : Value) (Typ : uint8_t)
  | OpPop
  | OpStackErase (EraseBegin EraseEnd : uint32_t).

Definition exec_op (o : operand_op) : M unit :=
  match o with
  | OpPush t v => push t v
  | OpPushTyped v ty => push_typed v ty
  | OpPop => pop;; ret tt
  | OpStackErase b e => stackErase b e
  end.

Fixpoint exec_ops (os : list operand_op) : M unit :=
  match os with
  | [] => ret tt
  | o :: os' => exec_op o;; exec_ops os'
  end.

(** The value and tag each push of a run appends, in the order of the run. *)
Definition pushed_by (o : operand_op) : list (Value * uint8_t) :=
  match o with
  | OpPush t v => [(v, tag_of_sizeof t)]
  | OpPushTyped v ty => [(v, ty)]
  | OpPop | OpStackErase _ _ => []
  end.

Definition pushed (os : list operand_op) : list (Value * uint8_t) :=
  concat (map pushed_by os).

(** What each operand operation asks of the state it is called in. *)
Definition op_contract (o : operand_op) (s : StackManager) : Prop :=
  match o with
  | OpPush _ _ | OpPushTyped _ _ => True
  | OpPop => 0 < size s
  | OpStackErase b e => UInt.to_Z e <= UInt.to_Z b <= size s
  end.

(** A tail call: the arguments of [pushFrame] with [IsTailCall = true]. *)
Record tail_call : Type := Build_tail_call
  { tc_Module : ModuleInstance; tc_From : Iterator;
    tc_LocalNum : uint32_t; tc_Arity : uint32_t }.

Definition exec_tail_call (c : tail_call) : M unit :=
  pushFrame (tc_Module c) (tc_From c) (tc_LocalNum c) (tc_Arity c) true.

Fixpoint exec_tail_calls (cs : list tail_call) : M unit :=
  match cs with
  | [] => ret tt
  | c :: cs' => exec_tail_call c;; exec_tail_calls cs'
  end.

(** *** Objects, copies and references

    The bulk getters return a vector by value and the bulk setters take
    one by value, whereas [getTop] and [getTopN] return a reference into
    the operand stack. To tell a copy from an alias, the vectors are
    objects of a store, each at a place of its own (its position in the
    store), and a [StackManager] object is the places of its three
    members. *)

Inductive object : Type :=
  | ValueVector (vs : list Value)
  | TypeVector (ts : list uint8_t)
  | FrameVector (fs : list Frame).

Local Abbreviation store := (list object).

Record StackManager_at : Type := Build_StackManager_at
  { ValueStack_at : nat; TypeStack_at : nat; FrameStack_at : nat }.

Definition members (this : StackManager_at) : list nat :=
  [ValueStack_at this; TypeStack_at this; FrameStack_at this].

(** The state of the stack manager whose members are at [this]. *)
Definition load (this : StackManager_at) (h : store) : option StackManager :=
  match h !! ValueStack_at this, h !! TypeStack_at this,
        h !! FrameStack_at this with
  | Some (ValueVector vs), Some (TypeVector ts), Some (FrameVector fs) =>
      Some (Build_StackManager vs ts fs)
  | _, _, _ => None
  end.

Definition store_members (this : StackManager_at) (s : StackManager)
    (h : store) : store :=
  <[FrameStack_at this := FrameVector (FrameStack s)]>
    (<[TypeStack_at this := TypeVector (TypeStack s)]>
       (<[ValueStack_at this := ValueVector (ValueStack s)]> h)).

(** A member function called on the object at [this]: it works on the
    members, in place. *)
Definition call {A} (this : StackManager_at) (m : M A) (h : store) :
    option (A * store) :=
  match load this h with
  | Some s =>
      match m s with
      | Some (a, s') => Some (a, store_members this s' h)
      | None => None
      end
  | None => None
  end.

(** A vector returned by value is a new object, constructed as a copy. *)
Definition new_object (o : object) (h : store) : nat * store :=
  (length h, h ++ [o]).

Definition call_getValueStack (this : StackManager_at) (h : store) :
    option (nat * store) :=
  match call this getValueStack h with
  | Some (vs, h') => Some (new_object (ValueVector vs) h')
  | None => None
  end.

Definition call_getTypeStack (this : StackManager_at) (h : store) :
    option (nat * store) :=
  match call this getTypeStack h with
  | Some (ts, h') => Some (new_object (TypeVector ts) h')
  | None => None
  end.

Definition call_getFrameStack (this : StackManager_at) (h : store) :
    option (nat * store) :=
  match call this getFrameStack h with
  | Some (fs, h') => Some (new_object (FrameVector fs) h')
  | None => None
  end.

(** A setter called with the vector object at [arg]: the parameter is a
    copy of it, assigned to the member. *)
Definition call_setValueStack (this : StackManager_at) (arg : nat)
    (h : store) : option store :=
  match h !! arg with
  | Some (ValueVector vs) => snd <$> call this (setValueStack vs) h
  | _ => None
  end.

Definition call_setTypeStack (this : StackManager_at) (arg : nat)
    (h : store) : option store :=
  match h !! arg with
  | Some (TypeVector ts) => snd <$> call this (setTypeStack ts) h
  | _ => None
  end.

Definition call_setFrameStack (this : StackManager_at) (arg : nat)
    (h : store) : option store :=
  match h !! arg with
  | Some (FrameVector fs) => snd <$> call this (setFrameStack fs) h
  | _ => None
  end.

(** A [Value &]: the place of one entry of a vector of values. *)
Record Value_ref : Type := Build_Value_ref
  { ref_vector : nat; ref_index : nat }.

(** [getTopN(Offset)] for its reference: the entry [size - Offset] of the
    member [ValueStack] itself; [getTop()] is [ValueStack.back()]. *)
Definition call_getTopN (this : StackManager_at) (Offset : uint32_t)
    (h : store) : option Value_ref :=
  match load this h with
  | Some s =>
      match getTopN Offset s with
      | Some _ =>
          Some (Build_Value_ref (ValueStack_at this)
                  (Z.to_nat (size s - UInt.to_Z Offset)))
      | None => None
      end
  | None => None
  end.

Definition call_getTop (this : StackManager_at) (h : store) :
    option Value_ref :=
  match load this h with
  | Some s =>
      match getTop s with
      | Some _ =>
          Some (Build_Value_ref (ValueStack_at this)
                  (length (ValueStack s) - 1))
      | None => None
      end
  | None => None
  end.

Definition read (r : Value_ref) (h : store) : option Value :=
  match h !! ref_vector r with
  | Some (ValueVector vs) => vs !! ref_index r
  | _ => None
  end.

(** [r = v] for a reference [r]. *)
Definition assign (r : Value_ref) (v : Value) (h : store) : option store :=
  match h !! ref_vector r with
  | Some (ValueVector vs) =>
      if (ref_index r <? length vs)%nat
      then Some (<[ref_vector r := ValueVector (<[ref_index r := v]> vs)]> h)
      else None
  | _ => None
  end.

(** A snapshot: the three vectors the bulk getters returned, held by the
    caller; restoring passes them to the bulk setters. *)
Record Snapshot : Type := Build_Snapshot
  { snap_ValueStack : nat; snap_TypeStack : nat; snap_FrameStack : nat }.

Definition snapshot_places (sn : Snapshot) : list nat :=
  [snap_ValueStack sn; snap_TypeStack sn; snap_FrameStack sn].

Definition take_snapshot (this : StackManager_at) (h : store) :
    option (Snapshot * store) :=
  match call_getValueStack this h with
  | Some (v, h1) =>
      match call_getTypeStack this h1 with
      | Some (t, h2) =>
          match call_getFrameStack this h2 with
          | Some (f, h3) => Some (Build_Snapshot v t f, h3)
          | None => None
          end
      | None => None
      end
  | None => None
  end.

Definition restore_snapshot (this : StackManager_at) (sn : Snapshot)
    (h : store) : option store :=
  match call_setValueStack this (snap_ValueStack sn) h with
  | Some h1 =>
      match call_setTypeStack this (snap_TypeStack sn) h1 with
      | Some h2 => call_setFrameStack this (snap_FrameStack sn) h2
      | None => None
      end
  | None => None
  end.

(** What the holder of a snapshot may go on to do with the stack manager:
    call a member function, assign through a reference into the operand
    stack, or restore the snapshot. *)
Inductive client_step : Type :=
  | Member (m : M unit)
  | Assign (Offset : uint32_t) (v : Value)
  | Restore (sn : Snapshot).

Definition run_step (this : StackManager_at) (st : client_step) (h : store) :
    option store :=
  match st with
  | Member m => snd <$> call this m h
  | Assign Offset v =>
      match call_getTopN this Offset h with
      | Some r => assign r v h
      | None => None
      end
  | Restore sn => restore_snapshot this sn h
  end.

Fixpoint run_steps (this : StackManager_at) (sts : list client_step)
    (h : store) : option store :=
  match sts with
  | [] => Some h
  | st :: sts' =>
      match run_step this st h with
      | Some h' => run_steps this sts' h'
      | None => None
      end
  end.

(** The objects of a snapshot hold the vectors of the state [s]. *)
Definition snapshot_holds (sn : Snapshot) (s : StackManager) (h : store) : Prop :=
  h !! snap_ValueStack sn = Some (ValueVector (ValueStack s)) /\
  h !! snap_TypeStack sn = Some (TypeVector (TypeStack s)) /\
  h !! snap_FrameStack sn = Some (FrameVector (FrameStack s)).

(** The invariant of the data: the tag stack runs parallel to the operand
    stack. *)
Definition parallel (s : StackManager) : Prop :=
  length (TypeStack s) = length (ValueStack s).

(** The size of a vector is a [size_t]. *)
Definition addressable (s : StackManager) : Prop := size s < 2 ^ 64.

(** The erasing half shared by [popFrame] and the tail call: with the frame
    [f] on top and [keep] values to retain, both vectors lose the range from
    [VPos - Locals] to [size - keep]. *)
Definition erased_to {A} (f : Frame) (keep : Z) (v : list A) : list A :=
  take (Z.to_nat (UInt.to_Z (VPos f) - UInt.to_Z (Locals f))) v
    ++ drop (Z.to_nat (vector.size v - keep)) v.

(** The operand stack and the tag stack are the two projections of one stack
    of pairs. *)
Definition paired (s : StackManager) (ps : list (Value * uint8_t)) : Prop :=
  ValueStack s = ps.*1 /\ TypeStack s = ps.*2.

(** Unsafe getter of top N value entries of stack. *)
Definition getTopSpan (N : uint32_t) : M (list Value) :=
  vs <- gets ValueStack;;
  try_ (fun s => vector.span (ValueStack s)
                   (vector.end_ vs - UInt.to_Z N) (UInt.to_Z N)).

(** The run that pushes the given values with their tags, bottom first. *)
Definition push_all (ps : list (Value * uint8_t)) : list operand_op :=
  map (fun p => OpPushTyped p.1 p.2) ps.

(** ** Properties *)

Ltac unfold_M :=
  unfold ValueStack_erase, TypeStack_erase, bind, gets, modify, assuming,
    try_, try_modify, ret, size, set_ValueStack, set_TypeStack,
    set_FrameStack, vector.begin, vector.end_.


(** *** Fixed-width integers and vectors *)

Lemma UInt_to_Z_range w (a : UInt.t w) : 0 <= w -> 0 <= UInt.to_Z a < 2 ^ w.
Proof.
  intros Hw. rewrite <- (UInt.wrapped a). unfold UInt.wrap.
  apply Z.mod_pos_bound. now apply Z.pow_pos_nonneg.
Qed.

Lemma UInt_of_Z_small w z : 0 <= z < 2 ^ w -> UInt.to_Z (UInt.of_Z w z) = z.
Proof. intros Hz. unfold UInt.of_Z, UInt.wrap. now apply Z.mod_small. Qed.

Lemma UInt_eq w (a b : UInt.t w) : UInt.to_Z a = UInt.to_Z b -> a = b.
Proof.
  destruct a as [x Hx], b as [y Hy]. simpl. intros ->.
  f_equal. apply UIP_dec, Z.eq_dec.
Qed.

Lemma wrap_small w z : 0 <= z < 2 ^ w -> UInt.wrap w z = z.
Proof. intros H. unfold UInt.wrap. now apply Z.mod_small. Qed.

Lemma size_t_sub_exact a b : 0 <= a - b < 2 ^ 64 -> size_t_sub a b = a - b.
Proof. intros H. unfold size_t_sub, UInt.wrap. now apply Z.mod_small. Qed.

Section vector_facts.
Context {A : Type}.
Implicit Types (v : list A) (x : A).

Lemma vector_size_nonneg v : 0 <= vector.size v.
Proof. unfold vector.size. lia. Qed.

Lemma vector_back_push v x : vector.back (vector.push_back v x) = Some x.
Proof. apply last_snoc. Qed.

Lemma vector_empty_false v : vector.empty v = false <-> v <> [].
Proof. destruct v; simpl; split; congruence. Qed.

Lemma vector_empty_snoc v x : vector.empty (v ++ [x]) = false.
Proof. now destruct v. Qed.

Lemma vector_pop_push v x : vector.pop_back (vector.push_back v x) = Some v.
Proof.
  unfold vector.pop_back, vector.push_back.
  now rewrite vector_empty_snoc, removelast_last.
Qed.

Lemma vector_erase_range v first last :
  0 <= first <= last -> last <= vector.size v ->
  vector.erase v first last =
    Some (take (Z.to_nat first) v ++ drop (Z.to_nat last) v).
Proof.
  intros [H0 H1] H2. unfold vector.erase.
  rewrite (proj2 (Z.leb_le _ _) H0), (proj2 (Z.leb_le _ _) H1),
          (proj2 (Z.leb_le _ _) H2). reflexivity.
Qed.

Lemma vector_erase_size v first last v' :
  vector.erase v first last = Some v' ->
  0 <= first <= last /\ last <= vector.size v /\
  v' = take (Z.to_nat first) v ++ drop (Z.to_nat last) v /\
  vector.size v' = vector.size v - (last - first).
Proof.
  unfold vector.erase. intros H.
  destruct (0 <=? first) eqn:E0; [|discriminate].
  destruct (first <=? last) eqn:E1; [|discriminate].
  destruct (last <=? vector.size v) eqn:E2; [|discriminate].
  apply Z.leb_le in E0, E1, E2. simpl in H. injection H as <-.
  repeat split; try assumption.
  unfold vector.size in *. rewrite length_app, length_take, length_drop. lia.
Qed.

Lemma vector_back_snoc v x : vector.back (v ++ [x]) = Some x.
Proof. apply last_snoc. Qed.

Lemma vector_pop_snoc v x : vector.pop_back (v ++ [x]) = Some v.
Proof. apply vector_pop_push. Qed.

Lemma vector_update_back_snoc (g : A -> A) v x :
  vector.update_back g (v ++ [x]) = Some (v ++ [g x]).
Proof. unfold vector.update_back. now rewrite last_snoc, removelast_last. Qed.

Lemma vector_back_inv v x :
  vector.back v = Some x -> exists v0, v = v0 ++ [x].
Proof. unfold vector.back. intros H. now apply last_Some in H. Qed.

Lemma vector_pop_back_inv v v' :
  vector.pop_back v = Some v' -> exists x, v = v' ++ [x].
Proof.
  unfold vector.pop_back. destruct (vector.empty v) eqn:E; [discriminate|].
  intros [= <-]. apply vector_empty_false in E.
  destruct (exists_last E) as (l & x & ->). exists x. now rewrite removelast_last.
Qed.

Lemma sublist_take_drop (l : list A) (i j : nat) :
  (i <= j)%nat -> take i l ++ drop j l `sublist_of` l.
Proof.
  intros Hij. rewrite <- (take_drop i l) at 3.
  apply sublist_app; [reflexivity|].
  replace j with (i + (j - i))%nat by lia. rewrite <- drop_drop.
  apply sublist_drop.
Qed.

End vector_facts.

(** *** Running the state transformers *)

Lemma bind_inv {A B} (m : M A) (k : A -> M B) s r :
  bind m k s = Some r -> exists a s', m s = Some (a, s') /\ k a s' = Some r.
Proof.
  unfold bind. destruct (m s) as [[a s']|]; [|discriminate]. eauto.
Qed.

(** *** reset *)

(** What [reset()] does to an arbitrary state: the operand stack and the
    frame stack are cleared, the tag stack is the one it was. *)
Lemma reset_effect s :
  reset s = Some (tt, Build_StackManager [] (TypeStack s) []).
Proof. reflexivity. Qed.

(** *** push and pop *)

(** C9: the one-argument [push] appends the value and a tag that depends on
    [sizeof(T)] alone: 0 for a size of exactly 4 bytes, 1 for exactly 8
    bytes and 2 for every other size. *)
Theorem push_tag_by_sizeof (sizeofT : Z) (Val : Value) (s : StackManager) :
  exists tag : uint8_t,
    push sizeofT Val s =
      Some (tt, Build_StackManager (ValueStack s ++ [Val])
                                   (TypeStack s ++ [tag]) (FrameStack s)) /\
    UInt.to_Z tag = (if sizeofT =? 4 then 0 else if sizeofT =? 8 then 1 else 2).
Proof.
  exists (tag_of_sizeof sizeofT). split; [reflexivity|].
  unfold tag_of_sizeof.
  destruct (sizeofT =? 4); [reflexivity|].
  destruct (sizeofT =? 8); reflexivity.
Qed.

(** C7: [push(v, t)] followed by [pop()] returns [v] and leaves the state,
    operand stack and tag stack included, as it was before the push. *)
Theorem push_pop_roundtrip (Val : Value) (Typ : uint8_t) (s : StackManager) :
  (push_typed Val Typ;; pop) s = Some (Val, s).
Proof.
  destruct s as [vs ts fs].
  unfold push_typed, pop, bind, modify, try_, try_modify, ret,
         set_ValueStack, set_TypeStack. simpl.
  rewrite vector_back_push. simpl.
  rewrite vector_pop_push. simpl.
  rewrite vector_pop_push. reflexivity.
Qed.

(** *** pushFrame, the call branch *)

(** C6, as far as it holds: below [2 ^ 32] operands, [pushFrame] without
    tail call appends one frame that records the arguments and the operand
    height, and leaves the operand and tag stacks alone. *)
Theorem pushFrame_call_frame (Mod : ModuleInstance) (FromIt : Iterator)
    (LocalNum Arity_ : uint32_t) (s : StackManager) :
  size s < 2 ^ 32 ->
  exists f : Frame,
    pushFrame Mod FromIt LocalNum Arity_ false s =
      Some (tt, Build_StackManager (ValueStack s) (TypeStack s)
                                   (FrameStack s ++ [f])) /\
    Module f = Mod /\ From f = FromIt /\ Locals f = LocalNum /\
    Arity f = Arity_ /\ UInt.to_Z (VPos f) = size s.
Proof.
  intros Hs.
  exists (Build_Frame Mod FromIt LocalNum Arity_ (UInt.of_Z 32 (size s))).
  repeat split. cbn [VPos]. apply UInt_of_Z_small.
  pose proof (vector_size_nonneg (ValueStack s)). unfold size in *. lia.
Qed.

(** In general the recorded [VPos] is the operand height modulo [2 ^ 32]. *)
Lemma pushFrame_call_VPos (Mod : ModuleInstance) (FromIt : Iterator)
    (LocalNum Arity_ : uint32_t) (s : StackManager) :
  pushFrame Mod FromIt LocalNum Arity_ false s =
    Some (tt, set_FrameStack
      (FrameStack s ++
         [Build_Frame Mod FromIt LocalNum Arity_ (UInt.of_Z 32 (size s))]) s).
Proof. reflexivity. Qed.

(** *** Frames *)

Lemma erased_to_size {A} (f : Frame) (keep : Z) (v : list A) :
  UInt.to_Z (Locals f) <= UInt.to_Z (VPos f) -> 0 <= keep ->
  UInt.to_Z (VPos f) - UInt.to_Z (Locals f) <= vector.size v - keep ->
  vector.size (erased_to f keep v) =
    UInt.to_Z (VPos f) - UInt.to_Z (Locals f) + keep.
Proof.
  intros Hle Hk Hreg. unfold erased_to, vector.size in *.
  rewrite length_app, length_take, length_drop. lia.
Qed.

Lemma popFrame_run s fs f :
  FrameStack s = fs ++ [f] -> parallel s -> addressable s ->
  UInt.to_Z (Locals f) <= UInt.to_Z (VPos f) ->
  UInt.to_Z (VPos f) - UInt.to_Z (Locals f) <= size s - UInt.to_Z (Arity f) ->
  popFrame s =
    Some (From f,
      Build_StackManager
        (erased_to f (UInt.to_Z (Arity f)) (ValueStack s))
        (erased_to f (UInt.to_Z (Arity f)) (TypeStack s)) fs).
Proof.
  destruct s as [vs ts fs0]. unfold parallel, addressable, size, erased_to.
  simpl. intros -> Hpar Haddr Hle Hreg.
  pose proof (UInt_to_Z_range 32 (Arity f) ltac:(lia)) as HA.
  pose proof (UInt_to_Z_range 32 (Locals f) ltac:(lia)) as HL.
  pose proof (UInt_to_Z_range 32 (VPos f) ltac:(lia)) as HV.
  pose proof (vector_size_nonneg vs) as Hvs.
  assert (Hts : vector.size ts = vector.size vs) by (unfold vector.size; lia).
  unfold popFrame. unfold_M.
  simpl. rewrite vector_empty_snoc. simpl. rewrite vector_back_snoc. simpl.
  unfold UInt.leb. rewrite (proj2 (Z.leb_le _ _) Hle). simpl.
  rewrite wrap_small by lia.
  rewrite size_t_sub_exact by lia.
  rewrite (proj2 (Z.leb_le _ _) Hreg). simpl.
  rewrite !Z.add_0_l.
  rewrite vector_erase_range by lia. simpl.
  rewrite Hts, vector_erase_range by lia. simpl.
  rewrite vector_back_snoc. simpl.
  rewrite vector_pop_snoc. simpl. reflexivity.
Qed.

Lemma pushFrame_tail_run Mod FromIt (LocalNum Arity_ : uint32_t) s fs f :
  FrameStack s = fs ++ [f] -> parallel s -> addressable s ->
  UInt.to_Z (Locals f) <= UInt.to_Z (VPos f) ->
  UInt.to_Z (VPos f) - UInt.to_Z (Locals f) <= size s - UInt.to_Z LocalNum ->
  pushFrame Mod FromIt LocalNum Arity_ true s =
    Some (tt,
      Build_StackManager
        (erased_to f (UInt.to_Z LocalNum) (ValueStack s))
        (erased_to f (UInt.to_Z LocalNum) (TypeStack s))
        (fs ++ [Build_Frame Mod (From f) LocalNum Arity_
                  (UInt.of_Z 32
                     (vector.size
                        (erased_to f (UInt.to_Z LocalNum) (ValueStack s))))])).
Proof.
  destruct s as [vs ts fs0]. unfold parallel, addressable, size, erased_to.
  simpl. intros -> Hpar Haddr Hle Hreg.
  pose proof (UInt_to_Z_range 32 LocalNum ltac:(lia)) as HA.
  pose proof (UInt_to_Z_range 32 (Locals f) ltac:(lia)) as HL.
  pose proof (UInt_to_Z_range 32 (VPos f) ltac:(lia)) as HV.
  pose proof (vector_size_nonneg vs) as Hvs.
  assert (Hts : vector.size ts = vector.size vs) by (unfold vector.size; lia).
  unfold pushFrame. unfold_M.
  simpl. rewrite vector_empty_snoc. simpl. rewrite vector_back_snoc. simpl.
  unfold UInt.leb. rewrite (proj2 (Z.leb_le _ _) Hle). simpl.
  rewrite wrap_small by lia.
  rewrite size_t_sub_exact by lia.
  rewrite (proj2 (Z.leb_le _ _) Hreg). simpl.
  rewrite !Z.add_0_l.
  rewrite vector_erase_range by lia. simpl.
  rewrite Hts, vector_erase_range by lia. simpl.
  rewrite vector_update_back_snoc. simpl. reflexivity.
Qed.

(** A tail call that returns has reused the top frame: whatever the state,
    the frame stack is as long afterwards as before. *)
Lemma pushFrame_tail_depth Mod FromIt (LocalNum Arity_ : uint32_t) s u s' :
  pushFrame Mod FromIt LocalNum Arity_ true s = Some (u, s') ->
  length (FrameStack s') = length (FrameStack s).
Proof.
  destruct s as [vs ts fs0]. unfold pushFrame. unfold_M. simpl.
  destruct (vector.empty fs0); simpl; [discriminate|].
  destruct (vector.back fs0) as [top|] eqn:Eb; simpl; [|discriminate].
  apply vector_back_inv in Eb as [fs ->].
  destruct (UInt.leb _ _); simpl; [|discriminate].
  destruct (_ <=? _); simpl; [|discriminate].
  destruct (vector.erase vs _ _); simpl; [|discriminate].
  destruct (vector.erase ts _ _); simpl; [|discriminate].
  rewrite vector_update_back_snoc. simpl. intros [= _ <-]. simpl.
  rewrite !length_app. reflexivity.
Qed.

Lemma exec_tail_calls_depth cs s u s' :
  exec_tail_calls cs s = Some (u, s') ->
  length (FrameStack s') = length (FrameStack s).
Proof.
  revert s. induction cs as [|c cs IH]; intros s; simpl.
  - unfold ret. now intros [= _ <-].
  - intros H. apply bind_inv in H as (a & s1 & H1 & H2).
    unfold exec_tail_call in H1.
    apply pushFrame_tail_depth in H1. apply IH in H2. congruence.
Qed.

(** C4: called with a frame [f] on top that meets its arithmetic
    precondition, [popFrame()] erases the positions from [VPos - Locals] to
    [size - Arity] of the operand stack and of the tag stack, which leaves
    [VPos - Locals + Arity] operands with the top [Arity] ones kept in
    order, removes the frame [f] and no other, and returns [f]'s [From]. *)
Theorem popFrame_effect (s : StackManager) (fs : list Frame) (f : Frame) :
  FrameStack s = fs ++ [f] -> parallel s -> addressable s ->
  UInt.to_Z (Locals f) <= UInt.to_Z (VPos f) ->
  UInt.to_Z (VPos f) - UInt.to_Z (Locals f) <= size s - UInt.to_Z (Arity f) ->
  exists s' : StackManager,
    popFrame s = Some (From f, s') /\
    ValueStack s' =
      take (Z.to_nat (UInt.to_Z (VPos f) - UInt.to_Z (Locals f))) (ValueStack s)
        ++ drop (Z.to_nat (size s - UInt.to_Z (Arity f))) (ValueStack s) /\
    TypeStack s' =
      take (Z.to_nat (UInt.to_Z (VPos f) - UInt.to_Z (Locals f))) (TypeStack s)
        ++ drop (Z.to_nat (size s - UInt.to_Z (Arity f))) (TypeStack s) /\
    FrameStack s' = fs /\
    size s' = UInt.to_Z (VPos f) - UInt.to_Z (Locals f) + UInt.to_Z (Arity f) /\
    drop (Z.to_nat (UInt.to_Z (VPos f) - UInt.to_Z (Locals f))) (ValueStack s') =
      drop (Z.to_nat (size s - UInt.to_Z (Arity f))) (ValueStack s).
Proof.
  intros Hfs Hpar Haddr Hle Hreg.
  pose proof (UInt_to_Z_range 32 (Arity f) ltac:(lia)) as HA.
  pose proof (UInt_to_Z_range 32 (Locals f) ltac:(lia)) as HL.
  assert (Hts : vector.size (TypeStack s) = size s)
    by (unfold size, vector.size; rewrite Hpar; reflexivity).
  eexists. split; [apply (popFrame_run s fs f); assumption|].
  cbn [ValueStack TypeStack FrameStack]. unfold erased_to. rewrite Hts.
  repeat split.
  - unfold size at 1. cbn [ValueStack].
    now apply (erased_to_size f (UInt.to_Z (Arity f)) (ValueStack s)).
  - apply drop_app_length'. rewrite length_take.
    unfold size, vector.size in Hreg. lia.
Qed.

(** C5: with at most one frame, or at an instruction that is not the last
    one, [maybePopFrame(PC)] returns [PC] and changes nothing; with two or
    more frames at a last instruction it is [popFrame()], which within its
    contract removes the top frame alone and returns its [From]. *)
Theorem maybePopFrame_cases (PC : Iterator) (s : StackManager) :
  ((length (FrameStack s) <= 1)%nat -> maybePopFrame PC s = Some (PC, s)) /\
  (isLast PC = false -> maybePopFrame PC s = Some (PC, s)) /\
  ((2 <= length (FrameStack s))%nat -> isLast PC = true ->
     maybePopFrame PC s = popFrame s /\
     forall fs f,
       FrameStack s = fs ++ [f] -> parallel s -> addressable s ->
       UInt.to_Z (Locals f) <= UInt.to_Z (VPos f) ->
       UInt.to_Z (VPos f) - UInt.to_Z (Locals f)
         <= size s - UInt.to_Z (Arity f) ->
       exists s', maybePopFrame PC s = Some (From f, s') /\
                  FrameStack s' = fs /\
                  length (FrameStack s') = (length (FrameStack s) - 1)%nat).
Proof.
  unfold maybePopFrame, bind, gets, ret, vector.size.
  split; [|split].
  - intros Hk. destruct (1 <? _) eqn:E; [apply Z.ltb_lt in E; lia|reflexivity].
  - intros ->. now rewrite andb_false_r.
  - intros Hk ->.
    assert (E : (1 <? Z.of_nat (length (FrameStack s))) = true)
      by (apply Z.ltb_lt; lia).
    rewrite E. simpl. split; [reflexivity|].
    intros fs f Hfs Hpar Haddr Hle Hreg.
    rewrite (popFrame_run s fs f Hfs Hpar Haddr Hle Hreg).
    eexists. repeat split. cbn [FrameStack].
    rewrite Hfs, length_app. simpl. lia.
Qed.
(** C3, as far as it holds: a tail call made with a frame [f] on top that
    meets the arithmetic precondition reuses that frame, so the frame stack
    keeps its length, now and through any further tail calls, and leaves
    [VPos f - Locals f + LocalNum] operands: the retained [LocalNum] on top
    of what lay below the old frame's locals. The frame keeps its [From] and
    takes the new module, locals, arity and operand height. *)
Theorem pushFrame_tail_call_effect (Mod : ModuleInstance) (FromIt : Iterator)
    (LocalNum Arity_ : uint32_t) (s : StackManager) (fs : list Frame)
    (f : Frame) :
  FrameStack s = fs ++ [f] -> parallel s -> addressable s ->
  UInt.to_Z (Locals f) <= UInt.to_Z (VPos f) ->
  UInt.to_Z (VPos f) - UInt.to_Z (Locals f) <= size s - UInt.to_Z LocalNum ->
  exists s' : StackManager,
    pushFrame Mod FromIt LocalNum Arity_ true s = Some (tt, s') /\
    length (FrameStack s') = length (FrameStack s) /\
    size s' =
      UInt.to_Z (VPos f) - UInt.to_Z (Locals f) + UInt.to_Z LocalNum /\
    ValueStack s' =
      take (Z.to_nat (UInt.to_Z (VPos f) - UInt.to_Z (Locals f))) (ValueStack s)
        ++ drop (Z.to_nat (size s - UInt.to_Z LocalNum)) (ValueStack s) /\
    TypeStack s' =
      take (Z.to_nat (UInt.to_Z (VPos f) - UInt.to_Z (Locals f))) (TypeStack s)
        ++ drop (Z.to_nat (size s - UInt.to_Z LocalNum)) (TypeStack s) /\
    FrameStack s' =
      fs ++ [Build_Frame Mod (From f) LocalNum Arity_ (UInt.of_Z 32 (size s'))] /\
    forall cs u s'',
      exec_tail_calls cs s' = Some (u, s'') ->
      length (FrameStack s'') = length (FrameStack s).
Proof.
  intros Hfs Hpar Haddr Hle Hreg.
  pose proof (UInt_to_Z_range 32 LocalNum ltac:(lia)) as HA.
  assert (Hts : vector.size (TypeStack s) = size s)
    by (unfold size, vector.size; rewrite Hpar; reflexivity).
  eexists. split; [apply (pushFrame_tail_run _ _ _ _ s fs f); assumption|].
  cbn [ValueStack TypeStack FrameStack]. unfold erased_to. rewrite Hts.
  repeat split.
  - rewrite Hfs, !length_app. reflexivity.
  - unfold size at 1. cbn [ValueStack].
    now apply (erased_to_size f (UInt.to_Z LocalNum) (ValueStack s)).
  - intros cs u s'' Hrun. apply exec_tail_calls_depth in Hrun.
    rewrite Hrun. cbn [FrameStack]. rewrite Hfs, !length_app. reflexivity.
Qed.

(** *** stackErase *)

(** C8: on stacks of [len] entries each and with [EraseEnd <= EraseBegin
    <= len], [stackErase] removes from both the entries at the positions
    from [len - EraseBegin] to [len - EraseEnd], [EraseBegin - EraseEnd] of
    them, and keeps every other entry, in order. *)
Theorem stackErase_removes_range (EraseBegin EraseEnd : uint32_t)
    (s : StackManager) (len : nat) :
  length (ValueStack s) = len -> length (TypeStack s) = len ->
  UInt.to_Z EraseEnd <= UInt.to_Z EraseBegin ->
  UInt.to_Z EraseBegin <= Z.of_nat len ->
  exists s' : StackManager,
    stackErase EraseBegin EraseEnd s = Some (tt, s') /\
    ValueStack s' =
      take (len - Z.to_nat (UInt.to_Z EraseBegin)) (ValueStack s)
        ++ drop (len - Z.to_nat (UInt.to_Z EraseEnd)) (ValueStack s) /\
    TypeStack s' =
      take (len - Z.to_nat (UInt.to_Z EraseBegin)) (TypeStack s)
        ++ drop (len - Z.to_nat (UInt.to_Z EraseEnd)) (TypeStack s) /\
    FrameStack s' = FrameStack s /\
    Z.of_nat (length (ValueStack s')) =
      Z.of_nat len - (UInt.to_Z EraseBegin - UInt.to_Z EraseEnd) /\
    Z.of_nat (length (TypeStack s')) =
      Z.of_nat len - (UInt.to_Z EraseBegin - UInt.to_Z EraseEnd).
Proof.
  destruct s as [vs ts fs]. simpl. intros Hvs Hts Hle Hb.
  pose proof (UInt_to_Z_range 32 EraseEnd ltac:(lia)) as HE.
  assert (Ev : vector.size vs = Z.of_nat len) by (unfold vector.size; lia).
  assert (Et : vector.size ts = Z.of_nat len) by (unfold vector.size; lia).
  unfold stackErase. unfold_M. simpl.
  unfold UInt.leb. rewrite Ev.
  rewrite (proj2 (Z.leb_le _ _) Hle), (proj2 (Z.leb_le _ _) Hb). simpl.
  rewrite Et, (proj2 (Z.leb_le _ _) Hb). simpl.
  rewrite Ev, vector_erase_range by lia. simpl.
  rewrite Et, vector_erase_range by lia. simpl.
  replace (Z.to_nat (Z.of_nat len - UInt.to_Z EraseBegin))
    with (len - Z.to_nat (UInt.to_Z EraseBegin))%nat by lia.
  replace (Z.to_nat (Z.of_nat len - UInt.to_Z EraseEnd))
    with (len - Z.to_nat (UInt.to_Z EraseEnd))%nat by lia.
  eexists. split; [reflexivity|]. simpl.
  repeat split; rewrite length_app, length_take, length_drop; lia.
Qed.

(** *** Runs of operand operations *)

Lemma paired_parallel s ps : paired s ps -> parallel s.
Proof. intros [Hv Ht]. unfold parallel. now rewrite Hv, Ht, !length_fmap. Qed.

Lemma exec_ops_app os1 os2 s :
  exec_ops (os1 ++ os2) s = (exec_ops os1;; exec_ops os2) s.
Proof.
  revert s. induction os1 as [|o os1 IH]; intros s; simpl; [reflexivity|].
  unfold bind in *. destruct (exec_op o s) as [[[] s1]|]; [apply IH|reflexivity].
Qed.

Lemma stackErase_inv (b e : uint32_t) s u s' :
  stackErase b e s = Some (u, s') ->
  UInt.to_Z e <= UInt.to_Z b /\ UInt.to_Z b <= size s /\
  UInt.to_Z b <= vector.size (TypeStack s) /\
  s' = Build_StackManager
         (take (Z.to_nat (size s - UInt.to_Z b)) (ValueStack s)
            ++ drop (Z.to_nat (size s - UInt.to_Z e)) (ValueStack s))
         (take (Z.to_nat (vector.size (TypeStack s) - UInt.to_Z b)) (TypeStack s)
            ++ drop (Z.to_nat (vector.size (TypeStack s) - UInt.to_Z e))
                 (TypeStack s))
         (FrameStack s).
Proof.
  destruct s as [vs ts fs]. unfold stackErase. unfold_M. simpl.
  unfold UInt.leb.
  destruct (UInt.to_Z e <=? UInt.to_Z b) eqn:E1; simpl; [|discriminate].
  destruct (UInt.to_Z b <=? vector.size vs) eqn:E2; simpl; [|discriminate].
  destruct (UInt.to_Z b <=? vector.size ts) eqn:E3; simpl; [|discriminate].
  apply Z.leb_le in E1, E2, E3.
  destruct (vector.erase vs _ _) as [vs'|] eqn:Ev; simpl; [|discriminate].
  destruct (vector.erase ts _ _) as [ts'|] eqn:Et; simpl; [|discriminate].
  apply vector_erase_size in Ev as (_ & _ & -> & _).
  apply vector_erase_size in Et as (_ & _ & -> & _).
  intros [= _ <-]. auto.
Qed.

(** One operation on paired stacks: what is kept is part of what was there,
    in order, and what is added is the pair the operation pushes. *)
Lemma exec_op_paired o s u s' ps :
  paired s ps -> exec_op o s = Some (u, s') ->
  exists kept, kept `sublist_of` ps /\ paired s' (kept ++ pushed_by o).
Proof.
  destruct s as [vs ts fs]. intros [Hv Ht]. simpl in Hv, Ht. subst vs ts.
  destruct o as [t v|v ty| |b e]; simpl.
  - intros [= _ <-]. exists ps. split; [reflexivity|].
    split; simpl; unfold vector.push_back; now rewrite fmap_app.
  - intros [= _ <-]. exists ps. split; [reflexivity|].
    split; simpl; unfold vector.push_back; now rewrite fmap_app.
  - unfold pop. unfold_M. simpl.
    destruct (vector.back ps.*1) as [v|]; simpl; [|discriminate].
    destruct (vector.pop_back ps.*1) as [vs'|] eqn:Ev; simpl; [|discriminate].
    destruct (vector.pop_back ps.*2) as [ts'|] eqn:Et; simpl; [|discriminate].
    intros [= _ <-].
    apply vector_pop_back_inv in Ev as [x Ev], Et as [y Et].
    destruct ps as [|p ps0 _] using rev_ind; [now destruct vs'|].
    rewrite fmap_app in Ev. rewrite fmap_app in Et. simpl in Ev, Et.
    apply app_inj_tail in Ev as [<- _], Et as [<- _].
    exists ps0. split; [now apply sublist_inserts_r|].
    rewrite app_nil_r. now split.
  - intros H. apply stackErase_inv in H as (Hle & Hb & _ & ->).
    unfold size, vector.size in *. simpl in *.
    rewrite !length_fmap in *.
    pose proof (UInt_to_Z_range 32 e ltac:(lia)) as He.
    exists (take (Z.to_nat (Z.of_nat (length ps) - UInt.to_Z b)) ps
              ++ drop (Z.to_nat (Z.of_nat (length ps) - UInt.to_Z e)) ps).
    split; [apply sublist_take_drop; lia|].
    rewrite app_nil_r.
    split; simpl; now rewrite fmap_app, fmap_take, fmap_drop.
Qed.

Lemma exec_ops_paired os s u s' ps hist :
  paired s ps -> ps `sublist_of` hist -> exec_ops os s = Some (u, s') ->
  exists ps', paired s' ps' /\ ps' `sublist_of` hist ++ pushed os.
Proof.
  revert s ps hist. induction os as [|o os IH]; intros s ps hist Hp Hsub; simpl.
  - unfold ret. intros [= _ <-]. exists ps. split; [assumption|].
    now apply sublist_inserts_r.
  - intros H. apply bind_inv in H as ([] & s1 & H1 & H2).
    destruct (exec_op_paired o s _ s1 ps Hp H1) as (kept & Hk & Hp1).
    assert (Hsub1 : kept ++ pushed_by o `sublist_of` hist ++ pushed_by o)
      by (apply sublist_app; [now transitivity ps|reflexivity]).
    destruct (IH s1 _ (hist ++ pushed_by o) Hp1 Hsub1 H2) as (ps' & Hp' & Hs').
    exists ps'. split; [assumption|].
    unfold pushed in *. simpl. now rewrite app_assoc.
Qed.

(** Within its contract an operand operation on parallel stacks returns. *)
Lemma exec_op_returns o s :
  parallel s -> op_contract o s -> is_Some (exec_op o s).
Proof.
  destruct s as [vs ts fs]. unfold parallel, size, vector.size. simpl.
  intros Hpar. destruct o as [t v|v ty| |b e]; simpl; intros Hc; [eauto..| |];
    unfold size, vector.size in Hc; simpl in Hc.
  - destruct vs as [|v0 vs0 _] using rev_ind; [simpl in Hc; lia|].
    destruct ts as [|t0 ts0 _] using rev_ind;
      [rewrite length_app in Hpar; simpl in Hpar; lia|].
    unfold pop. unfold_M. simpl.
    rewrite vector_back_snoc. simpl. rewrite vector_pop_snoc. simpl.
    rewrite vector_pop_snoc. simpl. eauto.
  - pose proof (UInt_to_Z_range 32 e ltac:(lia)) as He.
    assert (Ht : vector.size ts = vector.size vs)
      by (unfold vector.size; now rewrite Hpar).
    fold (vector.size vs) in Hc.
    unfold stackErase. unfold_M. simpl. unfold UInt.leb.
    rewrite (proj2 (Z.leb_le _ _) (proj1 Hc)), (proj2 (Z.leb_le _ _) (proj2 Hc)).
    simpl. rewrite Ht, (proj2 (Z.leb_le _ _) (proj2 Hc)). simpl.
    rewrite vector_erase_range by lia. simpl.
    rewrite Ht, vector_erase_range by lia. simpl. eauto.
Qed.

(** C2: at every point of a run of pushes of either kind, pops and erasures
    from the empty stack manager, the tag stack is as long as the operand
    stack, value and tag at each index are a pair one push of the run
    appended together (the pairs on the stack are, in order, among the pairs
    pushed so far), and the next operation within its contract returns. *)
Theorem operand_ops_keep_stacks_parallel (os1 os2 : list operand_op)
    (s_end : StackManager) :
  exec_ops (os1 ++ os2) new_StackManager = Some (tt, s_end) ->
  exists s : StackManager,
    exec_ops os1 new_StackManager = Some (tt, s) /\
    length (TypeStack s) = length (ValueStack s) /\
    zip (ValueStack s) (TypeStack s) `sublist_of` pushed os1 /\
    (forall (i : nat) v t,
       ValueStack s !! i = Some v -> TypeStack s !! i = Some t ->
       (v, t) ∈ pushed os1) /\
    (forall o, op_contract o s -> is_Some (exec_op o s)).
Proof.
  rewrite exec_ops_app. intros H.
  apply bind_inv in H as ([] & s & H1 & _). exists s. split; [assumption|].
  assert (Hp0 : paired new_StackManager []) by now split.
  destruct (exec_ops_paired os1 new_StackManager _ s [] [] Hp0
              ltac:(reflexivity) H1) as (ps & Hp & Hsub).
  simpl in Hsub. pose proof (paired_parallel s ps Hp) as Hpar.
  destruct Hp as [Hv Ht]. repeat split.
  - exact Hpar.
  - now rewrite Hv, Ht, zip_fst_snd.
  - intros i v t Hiv Hit. rewrite Hv in Hiv. rewrite Ht in Hit.
    rewrite list_lookup_fmap in Hiv. rewrite list_lookup_fmap in Hit.
    destruct (ps !! i) as [[v' t']|] eqn:Ei; simpl in *; [|discriminate].
    injection Hiv as <-. injection Hit as <-.
    apply (sublist_subseteq _ _ Hsub). eapply list_elem_of_lookup_2, Ei.
  - intros o. now apply exec_op_returns.
Qed.

(** *** Snapshots *)

Section store_facts.
Variable this : StackManager_at.
Hypothesis members_apart : NoDup (members this).

Lemma members_ne :
  ValueStack_at this <> TypeStack_at this /\
  ValueStack_at this <> FrameStack_at this /\
  TypeStack_at this <> FrameStack_at this.
Proof.
  pose proof members_apart as H. unfold members in H.
  apply NoDup_cons in H as [H1 H2].
  apply NoDup_cons in H2 as [H2 _].
  rewrite !not_elem_of_cons in H1. rewrite !not_elem_of_cons in H2. tauto.
Qed.

Lemma load_inv h s :
  load this h = Some s ->
  h !! ValueStack_at this = Some (ValueVector (ValueStack s)) /\
  h !! TypeStack_at this = Some (TypeVector (TypeStack s)) /\
  h !! FrameStack_at this = Some (FrameVector (FrameStack s)).
Proof.
  unfold load.
  destruct (h !! ValueStack_at this) as [[vs| |]|]; try discriminate.
  destruct (h !! TypeStack_at this) as [[|ts|]|]; try discriminate.
  destruct (h !! FrameStack_at this) as [[| |fs]|]; try discriminate.
  now intros [= <-].
Qed.

Lemma load_intro h vs ts fs :
  h !! ValueStack_at this = Some (ValueVector vs) ->
  h !! TypeStack_at this = Some (TypeVector ts) ->
  h !! FrameStack_at this = Some (FrameVector fs) ->
  load this h = Some (Build_StackManager vs ts fs).
Proof. unfold load. now intros -> -> ->. Qed.

Lemma store_members_length s h : length (store_members this s h) = length h.
Proof. unfold store_members. now rewrite !length_insert. Qed.

Lemma store_members_other s h (l : nat) :
  l ∉ members this -> store_members this s h !! l = h !! l.
Proof.
  unfold members. rewrite !not_elem_of_cons. intros (H1 & H2 & H3 & _).
  unfold store_members. now rewrite !list_lookup_insert_ne by congruence.
Qed.

Lemma load_store_members s0 s h :
  load this h = Some s0 -> load this (store_members this s h) = Some s.
Proof.
  intros H0. apply load_inv in H0 as (Hv & Ht & Hf).
  apply lookup_lt_Some in Hv, Ht, Hf.
  destruct members_ne as (N1 & N2 & N3).
  destruct s as [vs ts fs]. apply load_intro; unfold store_members; simpl.
  - rewrite !list_lookup_insert_ne by congruence.
    now apply list_lookup_insert_eq.
  - rewrite list_lookup_insert_ne by congruence.
    apply list_lookup_insert_eq. now rewrite length_insert.
  - apply list_lookup_insert_eq. now rewrite !length_insert.
Qed.

Lemma store_members_id s h :
  load this h = Some s -> store_members this s h = h.
Proof.
  intros H0. apply load_inv in H0 as (Hv & Ht & Hf).
  unfold store_members.
  now rewrite (list_insert_id h _ _ Hv), (list_insert_id h _ _ Ht),
    (list_insert_id h _ _ Hf).
Qed.

Lemma call_run {A} (m : M A) h s a s' :
  load this h = Some s -> m s = Some (a, s') ->
  call this m h = Some (a, store_members this s' h).
Proof. unfold call. now intros -> ->. Qed.

Lemma call_inv {A} (m : M A) h a h' :
  call this m h = Some (a, h') ->
  exists s s', load this h = Some s /\ m s = Some (a, s') /\
               h' = store_members this s' h.
Proof.
  unfold call. destruct (load this h) as [s|]; [|discriminate].
  destruct (m s) as [[a' s']|] eqn:E; [|discriminate].
  intros [= <- <-]. now exists s, s'.
Qed.

(** A member function works on the members and on nothing else. *)
Lemma call_footprint {A} (m : M A) h a h' :
  call this m h = Some (a, h') ->
  (exists s', load this h' = Some s') /\
  forall l : nat, l ∉ members this -> h' !! l = h !! l.
Proof.
  intros H. apply call_inv in H as (s & s' & Hl & _ & ->). split.
  - exists s'. now apply (load_store_members s).
  - intros l Hl'. now apply store_members_other.
Qed.

Lemma load_new_object h s o :
  load this h = Some s -> load this (h ++ [o]) = Some s.
Proof.
  intros H0. apply load_inv in H0 as (Hv & Ht & Hf).
  destruct s as [vs ts fs]. simpl in *.
  apply load_intro; rewrite lookup_app_l; eauto using lookup_lt_Some.
Qed.

Lemma members_allocated h s (l : nat) :
  load this h = Some s -> l ∈ members this -> (l < length h)%nat.
Proof.
  intros H0 Hl. apply load_inv in H0 as (Hv & Ht & Hf).
  unfold members in Hl. rewrite !elem_of_cons in Hl.
  destruct Hl as [->|[->|[->|Hl]]]; eauto using lookup_lt_Some.
  now apply elem_of_nil in Hl.
Qed.

Lemma take_snapshot_run h s :
  load this h = Some s ->
  take_snapshot this h =
    Some (Build_Snapshot (length h) (length h + 1) (length h + 2),
          h ++ [ValueVector (ValueStack s); TypeVector (TypeStack s);
                FrameVector (FrameStack s)]).
Proof.
  intros H0.
  unfold take_snapshot, call_getValueStack, call_getTypeStack,
    call_getFrameStack, new_object.
  rewrite (call_run getValueStack h s (ValueStack s) s H0 eq_refl).
  rewrite (store_members_id s h H0).
  pose proof (load_new_object h s (ValueVector (ValueStack s)) H0) as H1.
  rewrite (call_run getTypeStack _ s (TypeStack s) s H1 eq_refl).
  rewrite (store_members_id s _ H1).
  pose proof (load_new_object _ s (TypeVector (TypeStack s)) H1) as H2.
  rewrite (call_run getFrameStack _ s (FrameStack s) s H2 eq_refl).
  rewrite (store_members_id s _ H2).
  rewrite !length_app. simpl. rewrite <- !app_assoc. simpl.
  now rewrite <- Nat.add_assoc.
Qed.

Lemma restore_snapshot_run sn s h s1 :
  load this h = Some s1 -> snapshot_holds sn s h ->
  (forall l : nat, l ∈ snapshot_places sn -> l ∉ members this) ->
  exists h3, restore_snapshot this sn h = Some h3 /\
             load this h3 = Some s /\ snapshot_holds sn s h3 /\
             forall l : nat, l ∉ members this -> h3 !! l = h !! l.
Proof.
  intros H1 (Sv & St & Sf) Hout.
  assert (Ov : snap_ValueStack sn ∉ members this)
    by (apply Hout; unfold snapshot_places; repeat constructor).
  assert (Ot : snap_TypeStack sn ∉ members this)
    by (apply Hout; unfold snapshot_places; repeat constructor).
  assert (Of : snap_FrameStack sn ∉ members this)
    by (apply Hout; unfold snapshot_places; repeat constructor).
  unfold restore_snapshot, call_setValueStack. rewrite Sv.
  rewrite (call_run (setValueStack (ValueStack s)) h s1 tt _ H1 eq_refl).
  simpl. set (h1 := store_members this _ h).
  assert (L1 : load this h1 = Some (set_ValueStack (ValueStack s) s1))
    by now apply (load_store_members s1).
  unfold call_setTypeStack.
  assert (E1 : forall l : nat, l ∉ members this -> h1 !! l = h !! l)
    by (intros; now apply store_members_other).
  rewrite (E1 _ Ot), St.
  rewrite (call_run (setTypeStack (TypeStack s)) h1 _ tt _ L1 eq_refl).
  simpl. set (h2 := store_members this _ h1).
  assert (L2 : load this h2 =
               Some (set_TypeStack (TypeStack s)
                       (set_ValueStack (ValueStack s) s1)))
    by now apply (load_store_members (set_ValueStack (ValueStack s) s1)).
  assert (E2 : forall l : nat, l ∉ members this -> h2 !! l = h !! l)
    by (intros l Hl; unfold h2; rewrite store_members_other by exact Hl;
        now apply E1).
  unfold call_setFrameStack. rewrite (E2 _ Of), Sf.
  rewrite (call_run (setFrameStack (FrameStack s)) h2 _ tt _ L2 eq_refl).
  simpl. set (h3 := store_members this _ h2).
  assert (E3 : forall l : nat, l ∉ members this -> h3 !! l = h !! l)
    by (intros l Hl; unfold h3; rewrite store_members_other by exact Hl;
        now apply E2).
  exists h3. split; [reflexivity|]. split; [|split].
  - unfold h3. rewrite (load_store_members _ _ _ L2). now destruct s.
  - unfold snapshot_holds. now rewrite !E3 by assumption.
  - exact E3.
Qed.

Lemma call_getTopN_place Offset h r :
  call_getTopN this Offset h = Some r -> ref_vector r = ValueStack_at this.
Proof.
  unfold call_getTopN. destruct (load this h) as [s|]; [|discriminate].
  destruct (getTopN Offset s); [|discriminate]. now intros [= <-].
Qed.

Lemma assign_footprint r v h h' s :
  load this h = Some s -> ref_vector r = ValueStack_at this ->
  assign r v h = Some h' ->
  load this h' = Some (set_ValueStack (<[ref_index r := v]> (ValueStack s)) s) /\
  forall l : nat, l ∉ members this -> h' !! l = h !! l.
Proof.
  intros H0 Hr. pose proof (load_inv h s H0) as (Hv & Ht & Hf).
  destruct members_ne as (N1 & N2 & N3).
  unfold assign. rewrite Hr, Hv.
  destruct (_ <? _)%nat; [|discriminate]. intros [= <-]. split.
  - apply load_intro.
    + apply list_lookup_insert_eq. eauto using lookup_lt_Some.
    + now rewrite list_lookup_insert_ne by congruence.
    + now rewrite list_lookup_insert_ne by congruence.
  - intros l. unfold members. rewrite !not_elem_of_cons. intros (H1 & _).
    now rewrite list_lookup_insert_ne by congruence.
Qed.

Lemma call_set_footprint {A} (m : M A) h h' :
  snd <$> call this m h = Some h' ->
  (exists s', load this h' = Some s') /\
  forall l : nat, l ∉ members this -> h' !! l = h !! l.
Proof.
  destruct (call this m h) as [[a h1]|] eqn:E; [|discriminate].
  intros [= <-]. now apply call_footprint in E.
Qed.

Lemma restore_snapshot_footprint sn h h' :
  restore_snapshot this sn h = Some h' ->
  (exists s', load this h' = Some s') /\
  forall l : nat, l ∉ members this -> h' !! l = h !! l.
Proof.
  unfold restore_snapshot, call_setValueStack, call_setTypeStack,
    call_setFrameStack.
  destruct (h !! snap_ValueStack sn) as [[vs| |]|]; try discriminate.
  destruct (snd <$> call this (setValueStack vs) h) as [h1|] eqn:E1;
    [|discriminate].
  destruct (h1 !! snap_TypeStack sn) as [[|ts|]|]; try discriminate.
  destruct (snd <$> call this (setTypeStack ts) h1) as [h2|] eqn:E2;
    [|discriminate].
  destruct (h2 !! snap_FrameStack sn) as [[| |fs]|]; try discriminate.
  intros E3.
  apply call_set_footprint in E1 as [_ F1], E2 as [_ F2], E3 as [L3 F3].
  split; [exact L3|]. intros l Hl.
  now rewrite F3, F2, F1 by exact Hl.
Qed.

(** Nothing the holder of a snapshot does with the stack manager reaches
    an object that is not a member of it. *)
Lemma run_step_footprint st h h' s :
  load this h = Some s -> run_step this st h = Some h' ->
  (exists s', load this h' = Some s') /\
  forall l : nat, l ∉ members this -> h' !! l = h !! l.
Proof.
  intros H0 Hrun. destruct st as [m|Offset v|sn]; simpl in Hrun.
  - now apply call_set_footprint in Hrun.
  - destruct (call_getTopN this Offset h) as [r|] eqn:E; [|discriminate].
    apply call_getTopN_place in E.
    destruct (assign_footprint r v h h' s H0 E Hrun) as [Hl Ho]. eauto.
  - now apply restore_snapshot_footprint in Hrun.
Qed.

Lemma run_steps_footprint sts h h' s :
  load this h = Some s -> run_steps this sts h = Some h' ->
  (exists s', load this h' = Some s') /\
  forall l : nat, l ∉ members this -> h' !! l = h !! l.
Proof.
  revert h s. induction sts as [|st sts IH]; intros h s H0; simpl.
  - intros [= <-]. eauto.
  - destruct (run_step this st h) as [h1|] eqn:E; [|discriminate].
    intros Hrun.
    destruct (run_step_footprint st h h1 s H0 E) as [[s1 L1] F1].
    destruct (IH h1 s1 L1 Hrun) as [L2 F2].
    split; [exact L2|]. intros l Hl. now rewrite F2, F1 by exact Hl.
Qed.

(** A reference, by contrast, is an alias: what [getTop()] returned reads
    the top of the operand stack, and after an assignment through
    [getTopN(1)] it reads the value assigned, as the stack manager does. *)
Lemma references_alias h s r v h' :
  load this h = Some s -> call_getTop this h = Some r ->
  run_step this (Assign (UInt.of_Z 32 1) v) h = Some h' ->
  read r h = fst <$> getTop s /\
  read r h' = Some v /\
  exists s', load this h' = Some s' /\ fst <$> getTop s' = Some v.
Proof.
  intros H0 Hr Hrun. pose proof (load_inv h s H0) as (Hv & _).
  unfold call_getTop in Hr. rewrite H0 in Hr.
  unfold getTop, try_ in *.
  destruct (vector.back (ValueStack s)) as [x|] eqn:Eb; [|discriminate].
  injection Hr as <-.
  apply vector_back_inv in Eb as [v0 Eb].
  simpl in Hrun.
  destruct (call_getTopN this (UInt.of_Z 32 1) h) as [r2|] eqn:E2;
    [|discriminate].
  pose proof (call_getTopN_place _ _ _ E2) as Hp.
  destruct (assign_footprint r2 v h h' s H0 Hp Hrun) as [Hl' _].
  unfold call_getTopN in E2. rewrite H0 in E2.
  destruct (getTopN (UInt.of_Z 32 1) s); [|discriminate].
  injection E2 as <-. cbn [ref_index] in Hl'.
  unfold size, vector.size in Hl'. rewrite Eb in Hl' |- *.
  rewrite length_app in Hl' |- *. cbn [length] in Hl' |- *.
  change (UInt.wrap 32 1) with 1 in Hl'.
  replace (Z.to_nat (Z.of_nat (length v0 + 1) - 1)) with (length v0 + 0)%nat
    in Hl' by lia.
  replace (length v0 + 1 - 1)%nat with (length v0 + 0)%nat by lia.
  rewrite insert_app_r in Hl'. cbn [insert list_insert] in Hl'.
  unfold read. cbn [ref_vector ref_index].
  apply load_inv in Hl' as Hv'. destruct Hv' as (Hv' & _).
  cbn [ValueStack set_ValueStack] in Hv'. rewrite Hv, Hv', Eb.
  rewrite !lookup_app_r by lia.
  replace (length v0 + 0 - length v0)%nat with 0%nat by lia.
  split; [reflexivity|]. split; [reflexivity|].
  eexists. split; [exact Hl'|].
  cbn [ValueStack set_ValueStack]. now rewrite vector_back_snoc.
Qed.

End store_facts.

(** C10: a snapshot does not alias the live stacks, and restoring it gives
    the state back. The vectors the bulk getters return are objects of
    their own, apart from the three members, holding the operand, tag and
    frame vectors of the state in which they were taken. Whatever the
    holder then does with the stack manager (any member call, any
    assignment through [getTopN], any restore), the snapshot objects still
    hold those vectors; and passing them to the bulk setters returns and
    leaves the stack manager in the state of snapshot time, with its
    [size()], [getTop()] and [getModule()], the snapshot still intact. *)
Theorem snapshot_isolation (this : StackManager_at) (h : list object)
    (s : StackManager) :
  NoDup (members this) -> load this h = Some s ->
  exists (sn : Snapshot) (h1 : list object),
    take_snapshot this h = Some (sn, h1) /\
    load this h1 = Some s /\
    snapshot_holds sn s h1 /\
    (forall l : nat, l ∈ snapshot_places sn -> l ∉ members this) /\
    forall (sts : list client_step) (h2 : list object),
      run_steps this sts h1 = Some h2 ->
      snapshot_holds sn s h2 /\
      exists (h3 : list object) (s3 : StackManager),
        restore_snapshot this sn h2 = Some h3 /\
        load this h3 = Some s3 /\
        s3 = s /\
        size s3 = size s /\
        fst <$> getTop s3 = fst <$> getTop s /\
        fst <$> getModule s3 = fst <$> getModule s /\
        snapshot_holds sn s h3.
Proof.
  intros Hnd H0.
  set (h1 := h ++ [ValueVector (ValueStack s); TypeVector (TypeStack s);
                   FrameVector (FrameStack s)]).
  set (sn := Build_Snapshot (length h) (length h + 1) (length h + 2)).
  assert (L1 : load this h1 = Some s).
  { unfold h1.
    change (h ++ [ValueVector (ValueStack s); TypeVector (TypeStack s);
                  FrameVector (FrameStack s)])
      with (h ++ [ValueVector (ValueStack s)] ++ [TypeVector (TypeStack s)]
              ++ [FrameVector (FrameStack s)]).
    rewrite !app_assoc. now repeat apply load_new_object. }
  assert (S1 : snapshot_holds sn s h1).
  { unfold snapshot_holds, sn, h1. cbn [snap_ValueStack snap_TypeStack
      snap_FrameStack].
    rewrite !lookup_app_r by lia.
    replace (length h - length h)%nat with 0%nat by lia.
    replace (length h + 1 - length h)%nat with 1%nat by lia.
    replace (length h + 2 - length h)%nat with 2%nat by lia.
    repeat split. }
  assert (Hout : forall l : nat, l ∈ snapshot_places sn -> l ∉ members this).
  { intros l Hl Hm. apply (members_allocated this h s l H0) in Hm.
    unfold snapshot_places, sn in Hl. cbn in Hl.
    rewrite !elem_of_cons in Hl.
    destruct Hl as [->|[->|[->|Hl]]]; try lia. now apply elem_of_nil in Hl. }
  exists sn, h1. split; [apply take_snapshot_run; exact H0|].
  split; [exact L1|]. split; [exact S1|]. split; [exact Hout|].
  intros sts h2 Hrun.
  destruct (run_steps_footprint this Hnd sts h1 h2 s L1 Hrun) as [[s2 L2] F2].
  assert (S2 : snapshot_holds sn s h2).
  { destruct S1 as (Sv & St & Sf). unfold snapshot_holds.
    rewrite !F2; [now repeat split|..]; apply Hout; unfold snapshot_places;
      repeat constructor. }
  split; [exact S2|].
  destruct (restore_snapshot_run this Hnd sn s h2 s2 L2 S2 Hout)
    as (h3 & R3 & L3 & S3 & _).
  exists h3, s. split; [exact R3|]. split; [exact L3|].
  repeat (split; [reflexivity|]). exact S3.
Qed.

(** *** The accessors *)

Lemma getTopN_run (Offset : uint32_t) s :
  getTopN Offset s =
    if (0 <? UInt.to_Z Offset) && (UInt.to_Z Offset <=? size s)
    then (fun v => (v, s)) <$>
           ValueStack s !! Z.to_nat (size s - UInt.to_Z Offset)
    else None.
Proof.
  unfold getTopN. unfold_M.
  destruct ((0 <? _) && _); [|reflexivity].
  now destruct (ValueStack s !! _).
Qed.

Lemma getTypeTopN_run (Offset : uint32_t) s :
  getTypeTopN Offset s =
    if (0 <? UInt.to_Z Offset)
       && (UInt.to_Z Offset <=? vector.size (TypeStack s))
    then (fun t => (t, s)) <$>
           TypeStack s !! Z.to_nat (vector.size (TypeStack s) - UInt.to_Z Offset)
    else None.
Proof.
  unfold getTypeTopN. unfold_M.
  destruct ((0 <? _) && _); [|reflexivity].
  now destruct (TypeStack s !! _).
Qed.

Lemma getTopN_value (Offset : uint32_t) s :
  fst <$> getTopN Offset s =
    if (0 <? UInt.to_Z Offset) && (UInt.to_Z Offset <=? size s)
    then ValueStack s !! Z.to_nat (size s - UInt.to_Z Offset)
    else None.
Proof.
  rewrite getTopN_run. destruct (_ && _); [|reflexivity].
  now destruct (_ !! _).
Qed.

(** X1: [getTopN(Offset)] and [getTypeTopN(Offset)] return exactly when
    [0 < Offset <= size] of their stack; offset 0 and offsets beyond the
    bottom fail. *)
Theorem getTopN_defined_iff (Offset : uint32_t) (s : StackManager) :
  (is_Some (getTopN Offset s) <-> 0 < UInt.to_Z Offset <= size s) /\
  (is_Some (getTypeTopN Offset s) <->
     0 < UInt.to_Z Offset <= vector.size (TypeStack s)).
Proof.
  rewrite getTopN_run, getTypeTopN_run. unfold size, vector.size. split.
  - destruct (0 <? UInt.to_Z Offset) eqn:E0; simpl.
    + apply Z.ltb_lt in E0.
      destruct (UInt.to_Z Offset <=? _) eqn:E1.
      * apply Z.leb_le in E1. split; [lia|]. intros _.
        rewrite fmap_is_Some. apply lookup_lt_is_Some. lia.
      * apply Z.leb_gt in E1. split; [intros [? [=]]|lia].
    + apply Z.ltb_ge in E0. split; [intros [? [=]]|lia].
  - destruct (0 <? UInt.to_Z Offset) eqn:E0; simpl.
    + apply Z.ltb_lt in E0.
      destruct (UInt.to_Z Offset <=? _) eqn:E1.
      * apply Z.leb_le in E1. split; [lia|]. intros _.
        rewrite fmap_is_Some. apply lookup_lt_is_Some. lia.
      * apply Z.leb_gt in E1. split; [intros [? [=]]|lia].
    + apply Z.ltb_ge in E0. split; [intros [? [=]]|lia].
Qed.

(** X2: [getTopN] counts from the top, starting at 1: with [above] the
    entries over [v], [getTopN(|above| + 1)] returns [v] and leaves the
    state alone. *)
Theorem getTopN_counts_from_top (Offset : uint32_t) (s : StackManager)
    (below above : list Value) (v : Value) :
  ValueStack s = below ++ v :: above ->
  UInt.to_Z Offset = Z.of_nat (length above) + 1 ->
  getTopN Offset s = Some (v, s).
Proof.
  intros Hvs Ho. rewrite getTopN_run. unfold size, vector.size.
  rewrite Hvs, length_app. simpl length.
  replace (0 <? UInt.to_Z Offset) with true by (symmetry; apply Z.ltb_lt; lia).
  replace (UInt.to_Z Offset <=? _) with true by (symmetry; apply Z.leb_le; lia).
  simpl.
  replace (Z.to_nat _) with (length below + 0)%nat by lia.
  now rewrite lookup_app_r, Nat.add_comm, Nat.add_sub by lia.
Qed.

(** X3: [getTop()] is [getTopN(1)] and [getTypeTop()] is [getTypeTopN(1)],
    on the empty stack too, where all four fail. *)
Theorem getTop_is_getTopN_1 (s : StackManager) :
  getTopN (UInt.of_Z 32 1) s = getTop s /\
  getTypeTopN (UInt.of_Z 32 1) s = getTypeTop s.
Proof.
  rewrite getTopN_run, getTypeTopN_run. unfold getTop, getTypeTop, try_.
  unfold size, vector.size, vector.back.
  change (UInt.to_Z (UInt.of_Z 32 1)) with 1.
  split.
  - destruct (ValueStack s) as [|v0 vs0 _] using rev_ind; [reflexivity|].
    rewrite length_app, last_snoc. simpl length.
    replace (1 <=? _) with true by (symmetry; apply Z.leb_le; lia). simpl.
    replace (Z.to_nat _) with (length vs0 + 0)%nat by lia.
    now rewrite lookup_app_r, Nat.add_comm, Nat.add_sub by lia.
  - destruct (TypeStack s) as [|v0 vs0 _] using rev_ind; [reflexivity|].
    rewrite length_app, last_snoc. simpl length.
    replace (1 <=? _) with true by (symmetry; apply Z.leb_le; lia). simpl.
    replace (Z.to_nat _) with (length vs0 + 0)%nat by lia.
    now rewrite lookup_app_r, Nat.add_comm, Nat.add_sub by lia.
Qed.

Lemma getTopSpan_run (N : uint32_t) s :
  getTopSpan N s =
    if UInt.to_Z N <=? size s
    then Some (drop (Z.to_nat (size s - UInt.to_Z N)) (ValueStack s), s)
    else None.
Proof.
  pose proof (UInt_to_Z_range 32 N ltac:(lia)) as HN.
  unfold getTopSpan. unfold_M. unfold vector.span.
  fold (size s).
  replace (size s - UInt.to_Z N + UInt.to_Z N <=? size s) with true
    by (symmetry; apply Z.leb_le; lia).
  rewrite andb_true_r.
  destruct (UInt.to_Z N <=? size s) eqn:E.
  - apply Z.leb_le in E.
    replace (0 <=? size s - UInt.to_Z N) with true
      by (symmetry; apply Z.leb_le; lia).
    rewrite take_ge; [reflexivity|].
    rewrite length_drop. unfold size, vector.size in *. lia.
  - apply Z.leb_gt in E.
    replace (0 <=? size s - UInt.to_Z N) with false
      by (symmetry; apply Z.leb_gt; lia).
    reflexivity.
Qed.

(** X4: [getTopSpan(N)] returns exactly when [N <= size]; its span holds
    the top [N] values bottom first, so its entry at [N - j] is the value
    [getTopN(j)] returns, and the state is left alone. *)
Theorem getTopSpan_top_values (N : uint32_t) (s : StackManager) :
  (is_Some (getTopSpan N s) <-> UInt.to_Z N <= size s) /\
  forall (l : list Value) (s' : StackManager),
    getTopSpan N s = Some (l, s') ->
    s' = s /\
    Z.of_nat (length l) = UInt.to_Z N /\
    ValueStack s = take (Z.to_nat (size s - UInt.to_Z N)) (ValueStack s) ++ l /\
    forall j : uint32_t,
      0 < UInt.to_Z j <= UInt.to_Z N ->
      getTopN j s =
        (fun v => (v, s)) <$> l !! Z.to_nat (UInt.to_Z N - UInt.to_Z j).
Proof.
  pose proof (UInt_to_Z_range 32 N ltac:(lia)) as HN.
  rewrite getTopSpan_run. split.
  - destruct (UInt.to_Z N <=? size s) eqn:E.
    + apply Z.leb_le in E. split; eauto.
    + apply Z.leb_gt in E. split; [intros [? [=]]|lia].
  - intros l s'. destruct (UInt.to_Z N <=? size s) eqn:E; [|discriminate].
    apply Z.leb_le in E. intros [= <- <-].
    split; [reflexivity|]. split; [|split].
    + rewrite length_drop. unfold size, vector.size in *. lia.
    + now rewrite take_drop.
    + intros j Hj. rewrite getTopN_run.
      replace (0 <? UInt.to_Z j) with true by (symmetry; apply Z.ltb_lt; lia).
      replace (UInt.to_Z j <=? size s) with true
        by (symmetry; apply Z.leb_le; lia).
      simpl. rewrite lookup_drop. do 2 f_equal. lia.
Qed.

Lemma push_typed_run (Val : Value) (Typ : uint8_t) s :
  push_typed Val Typ s =
    Some (tt, Build_StackManager (ValueStack s ++ [Val]) (TypeStack s ++ [Typ])
                                 (FrameStack s)).
Proof. reflexivity. Qed.

(** X5: a push puts its value and tag on top and moves every entry one
    place further from the top, unchanged: after [push(v, t)], [getTop()]
    is [v], [getTypeTop()] is [t], the size is one more, and
    [getTopN(k + 1)], [getTypeTopN(k + 1)] answer what [getTopN(k)],
    [getTypeTopN(k)] answered before, failing where they failed. *)
Theorem push_then_read (Val : Value) (Typ : uint8_t) (s : StackManager) :
  exists s' : StackManager,
    push_typed Val Typ s = Some (tt, s') /\
    size s' = size s + 1 /\
    getTop s' = Some (Val, s') /\
    getTypeTop s' = Some (Typ, s') /\
    forall k k' : uint32_t,
      0 < UInt.to_Z k -> UInt.to_Z k' = UInt.to_Z k + 1 ->
      fst <$> getTopN k' s' = fst <$> getTopN k s /\
      fst <$> getTypeTopN k' s' = fst <$> getTypeTopN k s.
Proof.
  eexists. split; [apply push_typed_run|].
  unfold getTop, getTypeTop, try_, size. cbn [ValueStack TypeStack].
  rewrite !vector_back_snoc.
  assert (Hsz : forall A (l : list A) x,
            vector.size (l ++ [x]) = vector.size l + 1)
    by (intros; unfold vector.size; rewrite length_app; simpl; lia).
  split; [apply Hsz|]. split; [reflexivity|]. split; [reflexivity|].
  intros k k' Hk Hk'. rewrite !getTopN_run, !getTypeTopN_run.
  unfold size. cbn [ValueStack TypeStack]. rewrite !Hsz, Hk'.
  replace (0 <? UInt.to_Z k + 1) with true by (symmetry; apply Z.ltb_lt; lia).
  replace (0 <? UInt.to_Z k) with true by (symmetry; apply Z.ltb_lt; lia).
  simpl. split.
  - destruct (UInt.to_Z k <=? vector.size (ValueStack s)) eqn:E.
    + apply Z.leb_le in E.
      replace (UInt.to_Z k + 1 <=? _) with true
        by (symmetry; apply Z.leb_le; lia).
      rewrite <- !option_fmap_compose.
      replace (vector.size (ValueStack s) + 1 - (UInt.to_Z k + 1))
        with (vector.size (ValueStack s) - UInt.to_Z k) by lia.
      rewrite lookup_app_l; [now destruct (_ !! _)|].
      unfold vector.size in *. lia.
    + apply Z.leb_gt in E.
      replace (UInt.to_Z k + 1 <=? _) with false
        by (symmetry; apply Z.leb_gt; lia).
      reflexivity.
  - destruct (UInt.to_Z k <=? vector.size (TypeStack s)) eqn:E.
    + apply Z.leb_le in E.
      replace (UInt.to_Z k + 1 <=? _) with true
        by (symmetry; apply Z.leb_le; lia).
      rewrite <- !option_fmap_compose.
      replace (vector.size (TypeStack s) + 1 - (UInt.to_Z k + 1))
        with (vector.size (TypeStack s) - UInt.to_Z k) by lia.
      rewrite lookup_app_l; [now destruct (_ !! _)|].
      unfold vector.size in *. lia.
    + apply Z.leb_gt in E.
      replace (UInt.to_Z k + 1 <=? _) with false
        by (symmetry; apply Z.leb_gt; lia).
      reflexivity.
Qed.

Lemma pop_inversion (s s' : StackManager) (v : Value) :
  pop s = Some (v, s') <->
  exists t : uint8_t,
    ValueStack s = ValueStack s' ++ [v] /\
    TypeStack s = TypeStack s' ++ [t] /\
    FrameStack s' = FrameStack s.
Proof.
  destruct s as [vs ts fs], s' as [vs' ts' fs']. simpl. split.
  - unfold pop. unfold_M. simpl.
    destruct (vector.back vs) as [v0|] eqn:Eb; simpl; [|discriminate].
    destruct (vector.pop_back vs) as [vs0|] eqn:Ev; simpl; [|discriminate].
    destruct (vector.pop_back ts) as [ts0|] eqn:Et; simpl; [|discriminate].
    intros [= <- <- <- <-].
    apply vector_pop_back_inv in Ev as [x ->], Et as [t ->].
    rewrite vector_back_snoc in Eb. injection Eb as ->. eauto.
  - intros (t & -> & -> & ->). unfold pop. unfold_M. simpl.
    rewrite vector_back_snoc. simpl. rewrite vector_pop_snoc. simpl.
    rewrite vector_pop_snoc. reflexivity.
Qed.

(** X6: [pop()] returns [v] and leaves [s'] exactly when both the operand
    stack and the tag stack of the state lose their last entry, [v] being
    the operand lost, and the frames stay: it fails on an empty operand
    stack and on an empty tag stack, and then only. *)
Theorem pop_returns_iff (s s' : StackManager) (v : Value) :
  pop s = Some (v, s') <->
  exists t : uint8_t,
    ValueStack s = ValueStack s' ++ [v] /\
    TypeStack s = TypeStack s' ++ [t] /\
    FrameStack s' = FrameStack s.
Proof. apply pop_inversion. Qed.

(** *** stackErase, once more *)

Lemma stackErase_run (b e : uint32_t) s :
  UInt.to_Z e <= UInt.to_Z b -> UInt.to_Z b <= size s ->
  UInt.to_Z b <= vector.size (TypeStack s) ->
  stackErase b e s =
    Some (tt, Build_StackManager
         (take (Z.to_nat (size s - UInt.to_Z b)) (ValueStack s)
            ++ drop (Z.to_nat (size s - UInt.to_Z e)) (ValueStack s))
         (take (Z.to_nat (vector.size (TypeStack s) - UInt.to_Z b)) (TypeStack s)
            ++ drop (Z.to_nat (vector.size (TypeStack s) - UInt.to_Z e))
                 (TypeStack s))
         (FrameStack s)).
Proof.
  destruct s as [vs ts fs]. unfold size. simpl. intros Hle Hv Ht.
  pose proof (UInt_to_Z_range 32 e ltac:(lia)) as He.
  unfold stackErase. unfold_M. simpl. unfold UInt.leb.
  rewrite (proj2 (Z.leb_le _ _) Hle), (proj2 (Z.leb_le _ _) Hv). simpl.
  rewrite (proj2 (Z.leb_le _ _) Ht). simpl.
  rewrite vector_erase_range by lia. simpl.
  rewrite vector_erase_range by lia. reflexivity.
Qed.

(** X7: [stackErase(EraseBegin, EraseEnd)] returns exactly when
    [EraseEnd <= EraseBegin] and [EraseBegin] is at most the size of the
    operand stack and at most the size of the tag stack. *)
Theorem stackErase_defined_iff (EraseBegin EraseEnd : uint32_t)
    (s : StackManager) :
  is_Some (stackErase EraseBegin EraseEnd s) <->
  UInt.to_Z EraseEnd <= UInt.to_Z EraseBegin /\
  UInt.to_Z EraseBegin <= size s /\
  UInt.to_Z EraseBegin <= vector.size (TypeStack s).
Proof.
  split.
  - intros [[u s'] H]. apply stackErase_inv in H. tauto.
  - intros (Hle & Hv & Ht). rewrite stackErase_run by assumption. eauto.
Qed.

Lemma pop_op_run s :
  exec_op OpPop s =
    match vector.pop_back (ValueStack s), vector.pop_back (TypeStack s) with
    | Some vs, Some ts => Some (tt, Build_StackManager vs ts (FrameStack s))
    | _, _ => None
    end.
Proof.
  destruct s as [vs ts fs]. simpl. unfold pop. unfold_M. simpl.
  destruct vs as [|v vs0 _] using rev_ind; [reflexivity|].
  rewrite vector_back_snoc, vector_pop_snoc. simpl.
  rewrite vector_pop_snoc. simpl.
  now destruct (vector.pop_back ts).
Qed.

Lemma pops_run (k : nat) s :
  exec_ops (replicate k OpPop) s =
    if (k <=? length (ValueStack s))%nat && (k <=? length (TypeStack s))%nat
    then Some (tt, Build_StackManager
                     (take (length (ValueStack s) - k) (ValueStack s))
                     (take (length (TypeStack s) - k) (TypeStack s))
                     (FrameStack s))
    else None.
Proof.
  revert s. induction k as [|k IH]; intros [vs ts fs]; cbn [replicate exec_ops].
  - simpl. unfold ret. now rewrite !Nat.sub_0_r, !firstn_all.
  - unfold bind. rewrite pop_op_run. cbn [ValueStack TypeStack FrameStack].
    destruct vs as [|v vs0 _] using rev_ind; [reflexivity|].
    rewrite vector_pop_snoc.
    destruct ts as [|t ts0 _] using rev_ind;
      [simpl; now rewrite andb_false_r|].
    rewrite vector_pop_snoc, IH. cbn [ValueStack TypeStack FrameStack].
    rewrite !length_app. simpl length.
    replace (S k <=? length vs0 + 1)%nat with (k <=? length vs0)%nat
      by (destruct (Nat.leb_spec k (length vs0));
          destruct (Nat.leb_spec (S k) (length vs0 + 1)); lia).
    replace (S k <=? length ts0 + 1)%nat with (k <=? length ts0)%nat
      by (destruct (Nat.leb_spec k (length ts0));
          destruct (Nat.leb_spec (S k) (length ts0 + 1)); lia).
    destruct (Nat.leb_spec k (length vs0)); [|reflexivity].
    destruct (Nat.leb_spec k (length ts0)); [|reflexivity]. simpl.
    replace (length vs0 + 1 - S k)%nat with (length vs0 - k)%nat by lia.
    replace (length ts0 + 1 - S k)%nat with (length ts0 - k)%nat by lia.
    now rewrite !take_app_le by lia.
Qed.

(** X8: erasing the top [k] entries is popping [k] times:
    [stackErase(k, 0)] and [k] calls of [pop()] return the same state, or
    both fail. *)
Theorem stackErase_top_is_pops (k : nat) (s : StackManager) :
  Z.of_nat k < 2 ^ 32 ->
  stackErase (UInt.of_Z 32 (Z.of_nat k)) (UInt.of_Z 32 0) s =
    exec_ops (replicate k OpPop) s.
Proof.
  intros Hk. rewrite pops_run.
  assert (Ek : UInt.to_Z (UInt.of_Z 32 (Z.of_nat k)) = Z.of_nat k)
    by (apply UInt_of_Z_small; lia).
  assert (E0 : UInt.to_Z (UInt.of_Z 32 0) = 0) by reflexivity.
  destruct (Nat.leb_spec k (length (ValueStack s))) as [Hv|Hv];
    [destruct (Nat.leb_spec k (length (TypeStack s))) as [Ht|Ht]|]; simpl.
  - rewrite stackErase_run by (rewrite ?Ek, ?E0; unfold size, vector.size; lia).
    rewrite Ek, E0. unfold size, vector.size. rewrite !Z.sub_0_r, !Nat2Z.id.
    rewrite !drop_all, !app_nil_r.
    replace (Z.to_nat (Z.of_nat (length (ValueStack s)) - Z.of_nat k))
      with (length (ValueStack s) - k)%nat by lia.
    replace (Z.to_nat (Z.of_nat (length (TypeStack s)) - Z.of_nat k))
      with (length (TypeStack s) - k)%nat by lia.
    reflexivity.
  - destruct (stackErase _ _ s) as [[u s']|] eqn:E; [|reflexivity].
    apply stackErase_inv in E as (_ & _ & E & _).
    rewrite Ek in E. unfold vector.size in E. lia.
  - destruct (stackErase _ _ s) as [[u s']|] eqn:E; [|reflexivity].
    apply stackErase_inv in E as (_ & E & _).
    rewrite Ek in E. unfold size, vector.size in E. lia.
Qed.

Lemma erase_lookup_from_top {A} (l : list A) (n b e j : Z) :
  n = Z.of_nat (length l) -> 0 <= e <= b -> b <= n -> 0 < j ->
  (take (Z.to_nat (n - b)) l ++ drop (Z.to_nat (n - e)) l)
    !! Z.to_nat (n - (b - e) - j) =
  if j <=? e then l !! Z.to_nat (n - j)
  else if j <=? n - (b - e) then l !! Z.to_nat (n - (j + (b - e)))
  else (take (Z.to_nat (n - b)) l ++ drop (Z.to_nat (n - e)) l) !! 0%nat.
Proof.
  intros Hn He Hb Hj.
  destruct (j <=? e) eqn:E1.
  - apply Z.leb_le in E1.
    rewrite lookup_app_r by (rewrite length_take; lia).
    rewrite length_take, lookup_drop. f_equal. lia.
  - apply Z.leb_gt in E1. destruct (j <=? n - (b - e)) eqn:E2.
    + apply Z.leb_le in E2.
      rewrite lookup_app_l by (rewrite length_take; lia).
      rewrite lookup_take. destruct (decide _); [f_equal; lia|lia].
    + apply Z.leb_gt in E2. f_equal. lia.
Qed.

(** X9: what [stackErase(EraseBegin, EraseEnd)] keeps, seen from the top:
    for [j <= EraseEnd], [getTopN(j)] answers afterwards what it answered
    before; beyond, [getTopN(j)] answers what
    [getTopN(j + EraseBegin - EraseEnd)] answered before, or fails with
    it. *)
Theorem stackErase_keeps_top (EraseBegin EraseEnd : uint32_t)
    (s s' : StackManager) (u : unit) :
  stackErase EraseBegin EraseEnd s = Some (u, s') ->
  forall j j' : uint32_t,
    0 < UInt.to_Z j ->
    (UInt.to_Z j <= UInt.to_Z EraseEnd ->
       fst <$> getTopN j s' = fst <$> getTopN j s) /\
    (UInt.to_Z EraseEnd < UInt.to_Z j ->
     UInt.to_Z j' = UInt.to_Z j + (UInt.to_Z EraseBegin - UInt.to_Z EraseEnd) ->
       fst <$> getTopN j s' = fst <$> getTopN j' s).
Proof.
  intros H j j' Hj. apply stackErase_inv in H as (Hle & Hb & _ & Hs').
  pose proof (UInt_to_Z_range 32 EraseEnd ltac:(lia)) as He.
  rewrite !getTopN_value.
  set (n := size s) in *. set (b := UInt.to_Z EraseBegin) in *.
  set (e := UInt.to_Z EraseEnd) in *.
  assert (Hn : n = Z.of_nat (length (ValueStack s))) by reflexivity.
  assert (Hvs' : ValueStack s' = take (Z.to_nat (n - b)) (ValueStack s)
                                 ++ drop (Z.to_nat (n - e)) (ValueStack s))
    by now rewrite Hs'.
  assert (Hn' : size s' = n - (b - e)).
  { unfold size, vector.size. rewrite Hvs'.
    rewrite length_app, length_take, length_drop. lia. }
  rewrite Hn', Hvs'. clear Hs'.
  replace (0 <? UInt.to_Z j) with true by (symmetry; apply Z.ltb_lt; lia).
  pose proof (erase_lookup_from_top (ValueStack s) n b e (UInt.to_Z j)
                Hn ltac:(lia) Hb Hj) as Hlk.
  simpl. split.
  - intros Hje. rewrite (proj2 (Z.leb_le _ _) Hje) in Hlk.
    replace (UInt.to_Z j <=? n - (b - e)) with true
      by (symmetry; apply Z.leb_le; lia).
    replace (UInt.to_Z j <=? n) with true by (symmetry; apply Z.leb_le; lia).
    exact Hlk.
  - intros Hje Hj'. rewrite (proj2 (Z.leb_gt _ _) Hje) in Hlk.
    replace (0 <? UInt.to_Z j') with true by (symmetry; apply Z.ltb_lt; lia).
    simpl. rewrite Hj'.
    destruct (UInt.to_Z j <=? n - (b - e)) eqn:E.
    + apply Z.leb_le in E.
      replace (UInt.to_Z j + (b - e) <=? n) with true
        by (symmetry; apply Z.leb_le; lia).
      exact Hlk.
    + apply Z.leb_gt in E.
      replace (UInt.to_Z j + (b - e) <=? n) with false
        by (symmetry; apply Z.leb_gt; lia).
      reflexivity.
Qed.

(** *** Frames, once more *)

Lemma popFrame_inv s r s' :
  popFrame s = Some (r, s') ->
  exists fs f,
    FrameStack s = fs ++ [f] /\ FrameStack s' = fs /\ r = From f /\
    UInt.to_Z (Locals f) <= UInt.to_Z (VPos f) /\
    UInt.to_Z (VPos f) - UInt.to_Z (Locals f) <= size s - UInt.to_Z (Arity f) /\
    UInt.to_Z (VPos f) - UInt.to_Z (Locals f)
      <= vector.size (TypeStack s) - UInt.to_Z (Arity f) /\
    ValueStack s' = erased_to f (UInt.to_Z (Arity f)) (ValueStack s) /\
    TypeStack s' = erased_to f (UInt.to_Z (Arity f)) (TypeStack s).
Proof.
  destruct s as [vs ts fs0]. unfold popFrame. unfold_M. simpl.
  destruct (vector.empty fs0); simpl; [discriminate|].
  destruct (vector.back fs0) as [top|] eqn:Eb; simpl; [|discriminate].
  apply vector_back_inv in Eb as [fs ->].
  unfold UInt.leb.
  destruct (UInt.to_Z (Locals top) <=? UInt.to_Z (VPos top)) eqn:E1; simpl;
    [|discriminate].
  apply Z.leb_le in E1.
  destruct (_ <=? size_t_sub _ _); simpl; [|discriminate].
  destruct (vector.erase vs _ _) as [vs'|] eqn:Ev; simpl; [|discriminate].
  destruct (vector.erase ts _ _) as [ts'|] eqn:Et; simpl; [|discriminate].
  rewrite vector_back_snoc. simpl. rewrite vector_pop_snoc. simpl.
  intros [= <- <-]. rewrite Z.add_0_l in Ev, Et.
  apply vector_erase_size in Ev as (Hv1 & _ & -> & _).
  apply vector_erase_size in Et as (Ht1 & _ & -> & _).
  exists fs, top. unfold size, erased_to. simpl.
  repeat split; (lia || reflexivity).
Qed.

Lemma pushFrame_tail_inv Mod FromIt (LocalNum Arity_ : uint32_t) s u s' :
  pushFrame Mod FromIt LocalNum Arity_ true s = Some (u, s') ->
  exists fs f,
    FrameStack s = fs ++ [f] /\
    FrameStack s' =
      fs ++ [Build_Frame Mod (From f) LocalNum Arity_ (UInt.of_Z 32 (size s'))] /\
    UInt.to_Z (Locals f) <= UInt.to_Z (VPos f) /\
    UInt.to_Z (VPos f) - UInt.to_Z (Locals f) <= size s - UInt.to_Z LocalNum /\
    UInt.to_Z (VPos f) - UInt.to_Z (Locals f)
      <= vector.size (TypeStack s) - UInt.to_Z LocalNum /\
    ValueStack s' = erased_to f (UInt.to_Z LocalNum) (ValueStack s) /\
    TypeStack s' = erased_to f (UInt.to_Z LocalNum) (TypeStack s).
Proof.
  destruct s as [vs ts fs0]. unfold pushFrame. unfold_M. simpl.
  destruct (vector.empty fs0); simpl; [discriminate|].
  destruct (vector.back fs0) as [top|] eqn:Eb; simpl; [|discriminate].
  apply vector_back_inv in Eb as [fs ->].
  unfold UInt.leb.
  destruct (UInt.to_Z (Locals top) <=? UInt.to_Z (VPos top)) eqn:E1; simpl;
    [|discriminate].
  apply Z.leb_le in E1.
  destruct (_ <=? size_t_sub _ _); simpl; [|discriminate].
  destruct (vector.erase vs _ _) as [vs'|] eqn:Ev; simpl; [|discriminate].
  destruct (vector.erase ts _ _) as [ts'|] eqn:Et; simpl; [|discriminate].
  rewrite vector_update_back_snoc. simpl.
  intros [= _ <-]. rewrite Z.add_0_l in Ev, Et.
  apply vector_erase_size in Ev as (Hv1 & _ & -> & _).
  apply vector_erase_size in Et as (Ht1 & _ & -> & _).
  exists fs, top. unfold size, erased_to. simpl.
  repeat split; (lia || reflexivity).
Qed.

Lemma erased_to_length {A} (f : Frame) (keep : Z) (v : list A) :
  UInt.to_Z (Locals f) <= UInt.to_Z (VPos f) -> 0 <= keep ->
  UInt.to_Z (VPos f) - UInt.to_Z (Locals f) <= vector.size v - keep ->
  Z.of_nat (length (erased_to f keep v)) =
    UInt.to_Z (VPos f) - UInt.to_Z (Locals f) + keep.
Proof. apply erased_to_size. Qed.

(** X10: leaving a frame makes the stacks parallel: whenever [popFrame()]
    or a tail call returns, the operand stack and the tag stack have the
    same number of entries, [VPos - Locals] of the frame left plus the
    values kept, whatever their sizes were before. *)
Theorem frame_exit_makes_parallel (Mod : ModuleInstance) (FromIt : Iterator)
    (LocalNum Arity_ : uint32_t) (s s' : StackManager) (r : Iterator)
    (u : unit) :
  popFrame s = Some (r, s') \/
  pushFrame Mod FromIt LocalNum Arity_ true s = Some (u, s') ->
  length (TypeStack s') = length (ValueStack s').
Proof.
  intros [H|H].
  - apply popFrame_inv in H
      as (fs & f & _ & _ & _ & Hle & Hv & Ht & Hvs & Hts).
    pose proof (UInt_to_Z_range 32 (Arity f) ltac:(lia)) as HA.
    unfold size in Hv.
    apply Nat2Z.inj. rewrite Hvs, Hts, !erased_to_length; lia.
  - apply pushFrame_tail_inv in H
      as (fs & f & _ & _ & Hle & Hv & Ht & Hvs & Hts).
    pose proof (UInt_to_Z_range 32 LocalNum ltac:(lia)) as HA.
    unfold size in Hv.
    apply Nat2Z.inj. rewrite Hvs, Hts, !erased_to_length; lia.
Qed.

(** X11: [maybePopFrame] never removes the base frame: called with a frame
    stack whose bottom is [base], it returns with [base] still at the
    bottom, whatever the position and its flag. *)
Theorem maybePopFrame_keeps_base (PC r : Iterator) (s s' : StackManager)
    (base : Frame) (rest : list Frame) :
  FrameStack s = base :: rest ->
  maybePopFrame PC s = Some (r, s') ->
  exists rest' : list Frame, FrameStack s' = base :: rest'.
Proof.
  intros Hfs. unfold maybePopFrame, bind, gets, ret.
  destruct ((1 <? _) && isLast PC) eqn:E.
  - apply andb_true_iff in E as [E _]. apply Z.ltb_lt in E.
    unfold vector.size in E. intros H.
    apply popFrame_inv in H as (fs & f & Hs & Hs' & _).
    rewrite Hs' . rewrite Hs in Hfs, E. rewrite length_app in E. simpl in E.
    destruct fs as [|b fs1]; [simpl in E; lia|].
    injection Hfs as -> _. eauto.
  - intros [= _ <-]. eauto.
Qed.

(** X12: [getModule()] returns exactly when there is a frame; with no
    frame on the frame stack, [popFrame()] and a tail call fail as well,
    and [maybePopFrame(PC)] returns [PC] without touching the state. *)
Theorem frame_stack_empty (Mod : ModuleInstance) (FromIt PC : Iterator)
    (LocalNum Arity_ : uint32_t) (s : StackManager) :
  (is_Some (getModule s) <-> FrameStack s <> []) /\
  (FrameStack s = [] ->
     popFrame s = None /\
     pushFrame Mod FromIt LocalNum Arity_ true s = None /\
     maybePopFrame PC s = Some (PC, s)).
Proof.
  destruct s as [vs ts fs]. simpl. split.
  - unfold getModule. unfold_M. simpl.
    destruct fs as [|f0 fs0 _] using rev_ind.
    + simpl. split; [intros [? [=]]|congruence].
    + rewrite vector_empty_snoc. simpl. rewrite vector_back_snoc. simpl.
      split; [intros _; now destruct fs0|eauto].
  - intros ->. repeat split.
Qed.

(** X13: after a [pushFrame] that returns, as a call or as a tail call,
    [getModule()] is the module instance just passed. *)
Theorem getModule_after_pushFrame (Mod : ModuleInstance) (FromIt : Iterator)
    (LocalNum Arity_ : uint32_t) (IsTailCall : bool) (s s' : StackManager)
    (u : unit) :
  pushFrame Mod FromIt LocalNum Arity_ IsTailCall s = Some (u, s') ->
  getModule s' = Some (Mod, s').
Proof.
  intros H.
  assert (Hfs : exists fs f, FrameStack s' = fs ++ [f] /\ Module f = Mod).
  { destruct IsTailCall.
    - apply pushFrame_tail_inv in H as (fs & f & _ & Hs' & _). eauto.
    - rewrite pushFrame_call_VPos in H. injection H as _ <-. simpl. eauto. }
  destruct Hfs as (fs & f & Hfs & <-).
  unfold getModule. unfold_M. rewrite Hfs, vector_empty_snoc. simpl.
  rewrite Hfs, vector_back_snoc. reflexivity.
Qed.

Lemma push_all_run (ps : list (Value * uint8_t)) s :
  exec_ops (push_all ps) s =
    Some (tt, Build_StackManager (ValueStack s ++ ps.*1) (TypeStack s ++ ps.*2)
                                 (FrameStack s)).
Proof.
  revert s. induction ps as [|[v t] ps IH]; intros [vs ts fs]; simpl.
  - unfold ret. now rewrite !app_nil_r.
  - unfold bind. rewrite push_typed_run, IH. simpl.
    now rewrite <- !app_assoc.
Qed.

(** X14: a call and its return. After [pushFrame(m, pos, L, A, false)] on
    [H] operands, of which the top [L] are the callee's locals, pushes of
    the values [w] and [popFrame()], the resume position returned is
    [pos], the frame stack is the caller's again, and the operand stack is
    the caller's [H - L] bottom values followed by the top [A] of [w], the
    tag stack alike: [H - L + A] entries. *)
Theorem call_then_return (Mod : ModuleInstance) (FromIt : Iterator)
    (LocalNum Arity_ : uint32_t) (w : list (Value * uint8_t))
    (s : StackManager) :
  parallel s -> size s < 2 ^ 32 -> size s + Z.of_nat (length w) < 2 ^ 64 ->
  UInt.to_Z LocalNum <= size s ->
  UInt.to_Z Arity_ <= Z.of_nat (length w) ->
  (pushFrame Mod FromIt LocalNum Arity_ false;;
   exec_ops (push_all w);;
   popFrame) s =
  Some (FromIt,
    Build_StackManager
      (take (Z.to_nat (size s - UInt.to_Z LocalNum)) (ValueStack s)
         ++ drop (length w - Z.to_nat (UInt.to_Z Arity_)) w.*1)
      (take (Z.to_nat (size s - UInt.to_Z LocalNum)) (TypeStack s)
         ++ drop (length w - Z.to_nat (UInt.to_Z Arity_)) w.*2)
      (FrameStack s)).
Proof.
  intros Hpar Hs Hw HL HA.
  pose proof (UInt_to_Z_range 32 LocalNum ltac:(lia)) as HL0.
  pose proof (UInt_to_Z_range 32 Arity_ ltac:(lia)) as HA0.
  pose proof (vector_size_nonneg (ValueStack s)) as Hs0. fold (size s) in Hs0.
  unfold bind at 1. rewrite pushFrame_call_VPos. unfold set_FrameStack.
  unfold bind at 1. rewrite push_all_run. cbn [ValueStack TypeStack FrameStack].
  assert (HV : UInt.to_Z (UInt.of_Z 32 (size s)) = size s)
    by (apply UInt_of_Z_small; lia).
  assert (Hlen : Z.of_nat (length (ValueStack s)) = size s) by reflexivity.
  assert (Hlent : Z.of_nat (length (TypeStack s)) = size s)
    by (rewrite Hpar; reflexivity).
  rewrite (popFrame_run _ (FrameStack s)
             (Build_Frame Mod FromIt LocalNum Arity_ (UInt.of_Z 32 (size s)))).
  - cbn [ValueStack TypeStack From]. unfold erased_to, vector.size.
    cbn [VPos Locals Arity]. rewrite HV.
    rewrite !length_app, !length_fmap.
    f_equal. f_equal. f_equal.
    + rewrite take_app_le, drop_app_ge by lia. do 2 f_equal. lia.
    + rewrite take_app_le, drop_app_ge by lia. do 2 f_equal. lia.
  - reflexivity.
  - unfold parallel. cbn [ValueStack TypeStack].
    rewrite !length_app, !length_fmap. now rewrite Hpar.
  - unfold addressable, size, vector.size in *. cbn [ValueStack].
    rewrite length_app, length_fmap. lia.
  - cbn [Locals VPos]. lia.
  - cbn [Locals VPos Arity]. rewrite HV.
    unfold size, vector.size in *. cbn [ValueStack].
    rewrite length_app, length_fmap. lia.
Qed.

(** X15: a tail call is a return followed by a call. With a frame [f] on
    top, [pushFrame(m, pos, L, A, true)] does what [popFrame()] does when
    [f] is to leave [L] values, followed by
    [pushFrame(m, r, L, A, false)] with [r] the resume position that
    [popFrame()] returned: the same state, or both fail. *)
Theorem tail_call_is_return_then_call (Mod : ModuleInstance)
    (FromIt : Iterator) (LocalNum Arity_ : uint32_t) (s : StackManager)
    (fs : list Frame) (f : Frame) :
  FrameStack s = fs ++ [f] ->
  pushFrame Mod FromIt LocalNum Arity_ true s =
  (r <- popFrame;; pushFrame Mod r LocalNum Arity_ false)
    (set_FrameStack
       (fs ++ [Build_Frame (Module f) (From f) (Locals f) LocalNum (VPos f)]) s).
Proof.
  destruct s as [vs ts fs0]. simpl. intros ->.
  unfold pushFrame, popFrame. unfold_M. simpl.
  rewrite !vector_empty_snoc. simpl. rewrite !vector_back_snoc. simpl.
  destruct (UInt.leb (Locals f) (VPos f)); simpl; [|reflexivity].
  destruct (_ <=? size_t_sub _ _); simpl; [|reflexivity].
  destruct (vector.erase vs _ _) as [vs'|]; simpl; [|reflexivity].
  destruct (vector.erase ts _ _) as [ts'|]; simpl; [|reflexivity].
  rewrite vector_update_back_snoc, vector_back_snoc. simpl.
  rewrite vector_pop_snoc. reflexivity.
Qed.

Lemma exec_op_frame o s u s' :
  exec_op o s = Some (u, s') ->
  FrameStack s' = FrameStack s /\
  Z.of_nat (length (TypeStack s')) - Z.of_nat (length (ValueStack s')) =
    Z.of_nat (length (TypeStack s)) - Z.of_nat (length (ValueStack s)).
Proof.
  destruct o as [t v|v ty| |b e]; simpl.
  - change (push t v s) with (push_typed v (tag_of_sizeof t) s).
    rewrite push_typed_run. intros [= <- <-]. cbn [ValueStack TypeStack FrameStack].
    rewrite !length_app. simpl. split; [reflexivity|lia].
  - rewrite push_typed_run. intros [= <- <-]. cbn [ValueStack TypeStack FrameStack].
    rewrite !length_app. simpl. split; [reflexivity|lia].
  - intros H. apply bind_inv in H as (v & s1 & H & [= <- <-]).
    apply pop_inversion in H as (t & Hv & Ht & Hf).
    rewrite Hv, Ht, !length_app. simpl. split; [assumption|lia].
  - intros H. apply stackErase_inv in H as (Hle & Hv & Ht & ->).
    pose proof (UInt_to_Z_range 32 e ltac:(lia)) as He.
    unfold size, vector.size in *. simpl.
    rewrite !length_app, !length_take, !length_drop. split; [reflexivity|lia].
Qed.

Lemma exec_ops_frame (os : list operand_op) (s s' : StackManager)
    (u : unit) :
  exec_ops os s = Some (u, s') ->
  FrameStack s' = FrameStack s /\
  Z.of_nat (length (TypeStack s')) - Z.of_nat (length (ValueStack s')) =
    Z.of_nat (length (TypeStack s)) - Z.of_nat (length (ValueStack s)).
Proof.
  revert s. induction os as [|o os IH]; intros s; simpl.
  - unfold ret. intros [= <- <-]. split; reflexivity.
  - intros H. apply bind_inv in H as ([] & s1 & H1 & H2).
    apply exec_op_frame in H1 as [Hf1 Hd1]. apply IH in H2 as [Hf2 Hd2].
    split; [congruence|lia].
Qed.

(** X16: operand operations leave the frame stack alone and change the
    operand stack and the tag stack by the same number of entries: after a
    run of pushes, pops and erasures that returns, the frames are those
    before, and the tag stack is longer than the operand stack by what it
    was longer before. *)
Theorem operand_ops_keep_frames (os : list operand_op) (s s' : StackManager)
    (u : unit) :
  exec_ops os s = Some (u, s') ->
  FrameStack s' = FrameStack s /\
  Z.of_nat (length (TypeStack s')) - Z.of_nat (length (ValueStack s')) =
    Z.of_nat (length (TypeStack s)) - Z.of_nat (length (ValueStack s)).
Proof. apply exec_ops_frame. Qed.

Lemma exec_op_stale o s u s' (stale tags : list uint8_t) :
  TypeStack s = stale ++ tags -> length tags = length (ValueStack s) ->
  exec_op o s = Some (u, s') ->
  exists tags', TypeStack s' = stale ++ tags' /\
                length tags' = length (ValueStack s').
Proof.
  intros Ht Hl. destruct o as [t v|v ty| |b e]; simpl.
  - change (push t v s) with (push_typed v (tag_of_sizeof t) s).
    rewrite push_typed_run. intros [= <- <-]. cbn [ValueStack TypeStack].
    exists (tags ++ [tag_of_sizeof t]).
    rewrite Ht, app_assoc, !length_app. simpl. split; [reflexivity|lia].
  - rewrite push_typed_run. intros [= <- <-]. cbn [ValueStack TypeStack].
    exists (tags ++ [ty]).
    rewrite Ht, app_assoc, !length_app. simpl. split; [reflexivity|lia].
  - intros H. apply bind_inv in H as (v & s1 & H & [= <- <-]).
    apply pop_inversion in H as (t & Hv & Ht' & _).
    rewrite Hv, length_app in Hl. simpl in Hl.
    destruct tags as [|t0 tags0 _] using rev_ind; [simpl in Hl; lia|].
    rewrite Ht', app_assoc in Ht. apply app_inj_tail in Ht as [-> _].
    exists tags0. rewrite length_app in Hl. simpl in Hl.
    split; [reflexivity|lia].
  - intros H. apply stackErase_inv in H as (Hle & Hv & _ & ->).
    pose proof (UInt_to_Z_range 32 e ltac:(lia)) as He.
    unfold size, vector.size in *. cbn [ValueStack TypeStack].
    rewrite Ht, length_app.
    rewrite take_app_ge, drop_app_ge by lia.
    eexists. rewrite <- app_assoc. split; [reflexivity|].
    rewrite !length_app, !length_take, !length_drop. lia.
Qed.

Lemma exec_ops_stale os s u s' (stale tags : list uint8_t) :
  TypeStack s = stale ++ tags -> length tags = length (ValueStack s) ->
  exec_ops os s = Some (u, s') ->
  exists tags', TypeStack s' = stale ++ tags' /\
                length tags' = length (ValueStack s').
Proof.
  revert s tags. induction os as [|o os IH]; intros s tags Ht Hl; simpl.
  - unfold ret. intros [= <- <-]. eauto.
  - intros H. apply bind_inv in H as ([] & s1 & H1 & H2).
    destruct (exec_op_stale o s tt s1 stale tags Ht Hl H1) as (tags1 & Ht1 & Hl1).
    exact (IH s1 tags1 Ht1 Hl1 H2).
Qed.

(** X17: what [reset()] leaves behind stays underneath. After [reset()]
    and a run of operand operations that returns, the tag stack is the
    tags it held when [reset()] was called, in their places from the
    bottom, followed by one tag for each operand now on the operand
    stack; so it has as many entries more than the operand stack as it
    had entries when [reset()] was called, and there is no frame. *)
Theorem reset_then_operand_ops (os : list operand_op) (s s' : StackManager)
    (u : unit) :
  (reset;; exec_ops os) s = Some (u, s') ->
  exists tags : list uint8_t,
    TypeStack s' = TypeStack s ++ tags /\
    length tags = length (ValueStack s') /\
    length (TypeStack s') = (length (ValueStack s') + length (TypeStack s))%nat /\
    FrameStack s' = [].
Proof.
  unfold bind at 1. rewrite reset_effect. intros H.
  destruct (exec_ops_stale os (Build_StackManager [] (TypeStack s) []) u s'
              (TypeStack s) [] (eq_sym (app_nil_r _)) eq_refl H)
    as (tags & Ht & Hl).
  apply exec_ops_frame in H as [Hf _].
  exists tags. rewrite Ht, length_app. repeat split; [assumption|lia|assumption].
Qed.

End StackManager.

(** ** Instances

    Values are integers, module instances and instruction positions are
    numbered, and the instruction at position 7 is a last one. *)

Definition u8 (z : Z) : uint8_t := UInt.of_Z 8 z.
Definition u32 (z : Z) : uint32_t := UInt.of_Z 32 z.

Definition last_at_7 (PC : nat) : bool := Nat.eqb PC 7.

Abbreviation State := (@StackManager Z nat nat).

(** The base frame, and the frame of a callee of module 1 entered from
    position 3 with two locals and one result on five operands. *)
Definition base_frame : @Frame nat nat := Build_Frame 0%nat 0%nat (u32 0) (u32 0) (u32 0).
Definition callee_frame : @Frame nat nat := Build_Frame 1%nat 3%nat (u32 2) (u32 1) (u32 2).

Definition five_operands : State :=
  Build_StackManager [10; 20; 30; 40; 50] [u8 0; u8 0; u8 1; u8 2; u8 0]
                     [base_frame; callee_frame].

Definition ten_operands : State :=
  Build_StackManager [0; 1; 2; 3; 4; 5; 6; 7; 8; 9] (replicate 10 (u8 0)) [].

(** A stack manager holding [2 ^ 32] operands. *)
Definition full_operands : State :=
  Build_StackManager (replicate (Z.to_nat (2 ^ 32)) 0)
                     (replicate (Z.to_nat (2 ^ 32)) (u8 1)) [base_frame].

(** C1 at a state holding one operand: after [reset()] the operand stack
    and the frame stack are empty and the tag stack still has its entry. *)
Lemma reset_keeps_type_tags :
  exists s' : State,
    reset (Build_StackManager [10] [u8 0] [base_frame]) = Some (tt, s') /\
    length (ValueStack s') = 0%nat /\ length (FrameStack s') = 0%nat /\
    length (TypeStack s') = 1%nat.
Proof. eexists. split; [reflexivity|]. repeat split. Qed.

Lemma operand_ops_keep_stacks_parallel_witness :
  exists s : State,
    exec_ops [OpPush 4 10; OpPushTyped 20 (u8 1); OpPop; OpPush 16 30]
      new_StackManager = Some (tt, s) /\
    length (TypeStack s) = length (ValueStack s) /\
    zip (ValueStack s) (TypeStack s) `sublist_of`
      pushed [OpPush 4 10; OpPushTyped 20 (u8 1); OpPop; OpPush 16 30] /\
    (forall (i : nat) v t,
       ValueStack s !! i = Some v -> TypeStack s !! i = Some t ->
       (v, t) ∈ pushed [OpPush 4 10; OpPushTyped 20 (u8 1); OpPop; OpPush 16 30]) /\
    (forall o, op_contract o s -> is_Some (exec_op o s)).
Proof.
  apply (operand_ops_keep_stacks_parallel
           [OpPush 4 10; OpPushTyped 20 (u8 1); OpPop; OpPush 16 30]
           [OpStackErase (u32 2) (u32 1); OpPop]
           (Build_StackManager [] [] [])).
  reflexivity.
Defined.

Lemma pushFrame_tail_call_height_counterexample :
  FrameStack five_operands = [base_frame] ++ [callee_frame] /\
  parallel five_operands /\
  UInt.to_Z (Locals callee_frame) <= UInt.to_Z (VPos callee_frame) /\
  UInt.to_Z (VPos callee_frame) - UInt.to_Z (Locals callee_frame)
    <= size five_operands - UInt.to_Z (u32 1) /\
  exists s' : State,
    pushFrame 2%nat 9%nat (u32 1) (u32 0) true five_operands = Some (tt, s') /\
    length (FrameStack s') = length (FrameStack five_operands) /\
    size s' = 1 /\
    size five_operands - UInt.to_Z (Locals callee_frame) + UInt.to_Z (u32 1) = 4 /\
    size s' <>
      size five_operands - UInt.to_Z (Locals callee_frame) + UInt.to_Z (u32 1).
Proof.
  split; [reflexivity|]. split; [reflexivity|].
  split; [vm_compute; discriminate|]. split; [vm_compute; discriminate|].
  eexists. split; [vm_compute; reflexivity|].
  repeat split. vm_compute. discriminate.
Qed.

Lemma pushFrame_tail_call_effect_witness :
  exists s' : State,
    pushFrame 2%nat 9%nat (u32 1) (u32 0) true five_operands = Some (tt, s') /\
    length (FrameStack s') = 2%nat /\
    size s' = 1 /\
    ValueStack s' = [50] /\
    TypeStack s' = [u8 0] /\
    FrameStack s' = [base_frame; Build_Frame 2%nat 3%nat (u32 1) (u32 0) (u32 1)].
Proof.
  destruct (pushFrame_tail_call_effect 2%nat 9%nat (u32 1) (u32 0)
              five_operands [base_frame] callee_frame)
    as (s' & Hrun & Hdepth & Hsize & Hvs & Hts & Hfs & _).
  - reflexivity.
  - reflexivity.
  - vm_compute. reflexivity.
  - vm_compute. discriminate.
  - vm_compute. discriminate.
  - exists s'. split; [exact Hrun|]. split; [exact Hdepth|].
    split; [exact Hsize|]. split; [exact Hvs|]. split; [exact Hts|].
    rewrite Hfs, Hsize. reflexivity.
Defined.

Lemma popFrame_effect_witness :
  exists s' : State,
    popFrame five_operands = Some (3%nat, s') /\
    ValueStack s' = [50] /\ TypeStack s' = [u8 0] /\
    FrameStack s' = [base_frame] /\ size s' = 1.
Proof.
  destruct (popFrame_effect five_operands [base_frame] callee_frame)
    as (s' & Hrun & Hvs & Hts & Hfs & Hsize & _).
  - reflexivity.
  - reflexivity.
  - vm_compute. reflexivity.
  - vm_compute. discriminate.
  - vm_compute. discriminate.
  - exists s'. repeat split; assumption.
Defined.

Lemma maybePopFrame_cases_witness :
  maybePopFrame last_at_7 7%nat (set_FrameStack [base_frame] five_operands)
    = Some (7%nat, set_FrameStack [base_frame] five_operands) /\
  maybePopFrame last_at_7 4%nat five_operands = Some (4%nat, five_operands) /\
  exists s' : State,
    maybePopFrame last_at_7 7%nat five_operands = Some (3%nat, s') /\
    FrameStack s' = [base_frame].
Proof.
  split; [|split].
  - apply (proj1 (maybePopFrame_cases last_at_7 7%nat
                    (set_FrameStack [base_frame] five_operands))).
    vm_compute. lia.
  - apply (proj1 (proj2 (maybePopFrame_cases last_at_7 4%nat five_operands))).
    reflexivity.
  - destruct (maybePopFrame_cases last_at_7 7%nat five_operands)
      as (_ & _ & Hpop).
    destruct Hpop as [_ Hpop]; [vm_compute; lia|reflexivity|].
    destruct (Hpop [base_frame] callee_frame) as (s' & Hrun & Hfs & _).
    + reflexivity.
    + reflexivity.
    + vm_compute. reflexivity.
    + vm_compute. discriminate.
    + vm_compute. discriminate.
    + exists s'. now split.
Defined.

Lemma pushFrame_call_frame_witness :
  exists f : @Frame nat nat,
    pushFrame 1%nat 3%nat (u32 2) (u32 1) false five_operands =
      Some (tt, Build_StackManager (ValueStack five_operands)
                  (TypeStack five_operands)
                  (FrameStack five_operands ++ [f])) /\
    Module f = 1%nat /\ From f = 3%nat /\ Locals f = u32 2 /\
    Arity f = u32 1 /\ UInt.to_Z (VPos f) = 5.
Proof.
  apply (pushFrame_call_frame 1%nat 3%nat (u32 2) (u32 1) five_operands).
  vm_compute. reflexivity.
Defined.

Lemma full_operands_size : size full_operands = 2 ^ 32.
Proof.
  unfold size, vector.size, full_operands. cbn [ValueStack].
  rewrite length_replicate. apply Z2Nat.id. lia.
Qed.

(** With [2 ^ 32] operands the frame of a call records [VPos = 0], which is
    not the operand height. *)
Lemma pushFrame_call_frame_counterexample :
  exists f : @Frame nat nat,
    pushFrame 1%nat 3%nat (u32 2) (u32 1) false full_operands =
      Some (tt, Build_StackManager (ValueStack full_operands)
                  (TypeStack full_operands)
                  (FrameStack full_operands ++ [f])) /\
    size full_operands = 2 ^ 32 /\
    UInt.to_Z (VPos f) = 0 /\
    UInt.to_Z (VPos f) <> size full_operands.
Proof.
  exists (Build_Frame 1%nat 3%nat (u32 2) (u32 1)
            (UInt.of_Z 32 (size full_operands))).
  split; [apply pushFrame_call_VPos|].
  split; [apply full_operands_size|].
  cbn [VPos]. rewrite full_operands_size. split; [reflexivity|].
  vm_compute. discriminate.
Qed.

Lemma stackErase_removes_range_witness :
  exists s' : State,
    stackErase (u32 5) (u32 2) ten_operands = Some (tt, s') /\
    ValueStack s' = [0; 1; 2; 3; 4; 8; 9] /\
    TypeStack s' = replicate 7 (u8 0) /\
    length (ValueStack s') = (10 - 3)%nat.
Proof.
  destruct (stackErase_removes_range (u32 5) (u32 2) ten_operands 10)
    as (s' & Hrun & Hvs & Hts & _).
  - reflexivity.
  - reflexivity.
  - vm_compute. discriminate.
  - vm_compute. discriminate.
  - exists s'. split; [exact Hrun|]. rewrite Hvs, Hts. repeat split.
Defined.

(** The stack manager of [five_operands] as an object: its members are the
    first three objects of the store. *)
Definition five_at : StackManager_at := Build_StackManager_at 0 1 2.

Definition five_store : list (@object Z nat nat) :=
  [ValueVector (ValueStack five_operands);
   TypeVector (TypeStack five_operands);
   FrameVector (FrameStack five_operands)].

(** Overwrite the top operand through [getTopN(1)], push, then reset. *)
Definition mutations : list (@client_step Z nat nat) :=
  [Assign (u32 1) 99; Member (push_typed 60 (u8 1)); Member reset].

Lemma snapshot_isolation_witness :
  exists (sn : Snapshot) (h1 : list (@object Z nat nat)),
    take_snapshot five_at five_store = Some (sn, h1) /\
    snapshot_places sn = [3; 4; 5]%nat /\
    exists h2 : list (@object Z nat nat),
      run_steps five_at mutations h1 = Some h2 /\
      load five_at h2 =
        Some (Build_StackManager []
                [u8 0; u8 0; u8 1; u8 2; u8 0; u8 1] []) /\
      snapshot_holds sn five_operands h2 /\
      exists h3 : list (@object Z nat nat),
        restore_snapshot five_at sn h2 = Some h3 /\
        load five_at h3 = Some five_operands /\
        snapshot_holds sn five_operands h3.
Proof.
  destruct (snapshot_isolation five_at five_store five_operands)
    as (sn & h1 & Htake & _ & _ & _ & Hsteps).
  - unfold members, five_at. cbn. rewrite !NoDup_cons, !not_elem_of_cons.
    repeat split; try lia; try apply not_elem_of_nil. apply NoDup_nil_2.
  - reflexivity.
  - exists sn, h1. split; [exact Htake|].
    change (take_snapshot five_at five_store)
      with (Some (Build_Snapshot 3 4 5,
                  five_store ++ five_store)) in Htake.
    injection Htake as <- <-. split; [reflexivity|].
    destruct (run_steps five_at mutations (five_store ++ five_store))
      as [h2|] eqn:E; [|vm_compute in E; discriminate].
    destruct (Hsteps mutations h2 E)
      as (S2 & h3 & s3 & R3 & L3 & -> & _ & _ & _ & S3).
    exists h2. split; [exact E|].
    split; [vm_compute in E; injection E as <-; reflexivity|].
    split; [exact S2|].
    exists h3. repeat split; try assumption; apply S3.
Defined.

(** *** Instances of the further properties *)

Lemma getTopN_counts_from_top_witness :
  getTopN (u32 2) five_operands = Some (40, five_operands).
Proof.
  apply (getTopN_counts_from_top (u32 2) five_operands [10; 20; 30] [50] 40);
    reflexivity.
Defined.

Lemma stackErase_top_is_pops_witness :
  stackErase (UInt.of_Z 32 (Z.of_nat 2)) (UInt.of_Z 32 0) five_operands =
    exec_ops (replicate 2 OpPop) five_operands.
Proof.
  apply (stackErase_top_is_pops 2 five_operands). vm_compute. reflexivity.
Defined.

(** What [stackErase(5, 2)] leaves of [ten_operands]. *)
Definition seven_operands : State :=
  Build_StackManager [0; 1; 2; 3; 4; 8; 9] (replicate 7 (u8 0)) [].

Lemma stackErase_keeps_top_witness :
  fst <$> getTopN (u32 1) seven_operands
    = fst <$> getTopN (u32 1) ten_operands /\
  fst <$> getTopN (u32 3) seven_operands
    = fst <$> getTopN (u32 6) ten_operands.
Proof.
  assert (Hrun : stackErase (u32 5) (u32 2) ten_operands =
                 Some (tt, seven_operands))
    by reflexivity.
  split.
  - refine (proj1 (stackErase_keeps_top _ _ _ _ _ Hrun (u32 1) (u32 1) _) _);
      vm_compute; (reflexivity || discriminate).
  - refine (proj2 (stackErase_keeps_top _ _ _ _ _ Hrun (u32 3) (u32 6) _) _ _);
      vm_compute; reflexivity.
Defined.

(** Five operands over seven tags: the tag stack is the longer one. *)
Definition seven_tags : State :=
  Build_StackManager [10; 20; 30; 40; 50] (replicate 7 (u8 0))
                     [base_frame; callee_frame].

Lemma frame_exit_makes_parallel_witness :
  length (TypeStack seven_tags) <> length (ValueStack seven_tags) /\
  length (TypeStack (Build_StackManager [50] [u8 0] [base_frame] : State)) =
  length (ValueStack (Build_StackManager [50] [u8 0] [base_frame] : State)).
Proof.
  split; [vm_compute; lia|].
  apply (frame_exit_makes_parallel 0%nat 0%nat (u32 0) (u32 0) seven_tags
           _ 3%nat tt).
  left. reflexivity.
Defined.

Lemma maybePopFrame_keeps_base_witness :
  exists rest' : list (@Frame nat nat),
    FrameStack (Build_StackManager [50] [u8 0] [base_frame] : State)
      = base_frame :: rest'.
Proof.
  apply (maybePopFrame_keeps_base last_at_7 7%nat 3%nat five_operands
           _ base_frame [callee_frame]); reflexivity.
Defined.

Lemma getModule_after_pushFrame_witness :
  getModule (Build_StackManager [50] [u8 0]
               [base_frame; Build_Frame 2%nat 3%nat (u32 1) (u32 0) (u32 1)]
             : State)
  = Some (2%nat,
          Build_StackManager [50] [u8 0]
            [base_frame; Build_Frame 2%nat 3%nat (u32 1) (u32 0) (u32 1)]).
Proof.
  apply (getModule_after_pushFrame 2%nat 9%nat (u32 1) (u32 0) true
           five_operands _ tt).
  reflexivity.
Defined.

Lemma call_then_return_witness :
  (bind (pushFrame 1%nat 3%nat (u32 2) (u32 1) false)
     (fun _ => bind (exec_ops (push_all [(30, u8 0); (40, u8 1)]))
                 (fun _ => popFrame)))
    (Build_StackManager [5; 10; 20] [u8 1; u8 0; u8 0] [base_frame])
  = Some (3%nat, Build_StackManager [5; 40] [u8 1; u8 1] [base_frame]).
Proof.
  apply (call_then_return 1%nat 3%nat (u32 2) (u32 1)
           [(30, u8 0); (40, u8 1)]
           (Build_StackManager [5; 10; 20] [u8 1; u8 0; u8 0] [base_frame]));
    vm_compute; (reflexivity || discriminate).
Defined.

Lemma tail_call_is_return_then_call_witness :
  pushFrame 2%nat 9%nat (u32 1) (u32 0) true five_operands =
  bind popFrame (fun r => pushFrame 2%nat r (u32 1) (u32 0) false)
    (set_FrameStack
       ([base_frame] ++ [Build_Frame 1%nat 3%nat (u32 2) (u32 1) (u32 2)])
       five_operands).
Proof.
  apply (tail_call_is_return_then_call 2%nat 9%nat (u32 1) (u32 0)
           five_operands [base_frame] callee_frame).
  reflexivity.
Defined.

(** What a pop, an erasure of the top entry and a push leave of
    [five_operands]. *)
Definition four_operands : State :=
  Build_StackManager [10; 20; 30; 60] [u8 0; u8 0; u8 1; u8 1]
                     [base_frame; callee_frame].

Lemma operand_ops_keep_frames_witness :
  FrameStack four_operands = FrameStack five_operands /\
  Z.of_nat (length (TypeStack four_operands))
    - Z.of_nat (length (ValueStack four_operands)) =
  Z.of_nat (length (TypeStack five_operands))
    - Z.of_nat (length (ValueStack five_operands)).
Proof.
  apply (operand_ops_keep_frames
           [OpPop; OpStackErase (u32 1) (u32 0); OpPushTyped 60 (u8 1)]
           five_operands four_operands tt).
  reflexivity.
Defined.

Lemma reset_then_operand_ops_witness :
  exists tags : list uint8_t,
    TypeStack (Build_StackManager [70]
                 [u8 0; u8 0; u8 1; u8 2; u8 0; u8 2] [] : State)
      = TypeStack five_operands ++ tags /\
    length tags = 1%nat /\
    length [u8 0; u8 0; u8 1; u8 2; u8 0; u8 2]
      = (1 + length (TypeStack five_operands))%nat /\
    FrameStack (Build_StackManager [70]
                  [u8 0; u8 0; u8 1; u8 2; u8 0; u8 2] [] : State) = [].
Proof.
  apply (reset_then_operand_ops
           [OpPushTyped 60 (u8 1); OpPushTyped 70 (u8 2);
            OpStackErase (u32 2) (u32 1)]
           five_operands
           (Build_StackManager [70] [u8 0; u8 0; u8 1; u8 2; u8 0; u8 2] [])
           tt).
  reflexivity.
Defined.

(** ** The VM driver: properties *)

Module VM_facts.
Import VM.

Section driver_facts.
Context `{Collaborators}.
Variable setHostFunction :
  HostFunction -> String.string -> String.string -> VM -> ErrCode * VM.

Ltac run_driver :=
  unfold or_fail, by_hasError, testAndSetError;
  repeat case_match; simplify_eq; simpl.

(** X18: [runLoader] returns [Success] or [Failed]; it leaves the executor
    engine, the arguments, the configuration and the path alone; when it
    returns [Success] the result record is the old one with the stage set
    to the loader's, nothing else stored, and has no error; when it returns
    [Failed], either one status other than the loader's [Success] was
    stored, once, or nothing was stored and the record has an error. *)
Theorem runLoader_outcome (vm : VM) :
  (fst (runLoader vm) = Success \/ fst (runLoader vm) = Failed) /\
  ExecutorEngine (snd (runLoader vm)) = ExecutorEngine vm /\
  Args (snd (runLoader vm)) = Args vm /\
  Config (snd (runLoader vm)) = Config vm /\
  WasmPath (snd (runLoader vm)) = WasmPath vm /\
  (fst (runLoader vm) = Success ->
     VMResult (snd (runLoader vm)) = Result_setStage Stage_Loader (VMResult vm) /\
     Result_hasError (VMResult (snd (runLoader vm))) = false) /\
  (fst (runLoader vm) = Failed ->
     (exists st : Loader_ErrCode,
        st <> status_Success Loader_ErrCode /\
        VMResult (snd (runLoader vm)) =
          Result_setErrCode (status_code Loader_ErrCode st)
            (Result_setStage Stage_Loader (VMResult vm))) \/
     (VMResult (snd (runLoader vm)) = Result_setStage Stage_Loader (VMResult vm) /\
      Result_hasError (VMResult (snd (runLoader vm))) = true)).
Proof.
  pose proof Failed_not_Success as Hne.
  unfold runLoader. run_driver; repeat split; auto; try congruence;
    intros _; eauto.
Qed.

(** X19: [runExecutor] returns [Success] or [Failed]; it leaves the loader
    engine, the configuration and the path alone; when it returns
    [Success] the result record is the old one with the stage set to the
    executor's, nothing else stored, and has no error; when it returns
    [Failed], either one status other than the executor's [Success] was
    stored, once, or nothing was stored and the record has an error. *)
Theorem runExecutor_outcome (vm : VM) :
  (fst (runExecutor vm) = Success \/ fst (runExecutor vm) = Failed) /\
  LoaderEngine (snd (runExecutor vm)) = LoaderEngine vm /\
  Config (snd (runExecutor vm)) = Config vm /\
  WasmPath (snd (runExecutor vm)) = WasmPath vm /\
  (fst (runExecutor vm) = Success ->
     VMResult (snd (runExecutor vm)) =
       Result_setStage Stage_Executor (VMResult vm) /\
     Result_hasError (VMResult (snd (runExecutor vm))) = false) /\
  (fst (runExecutor vm) = Failed ->
     (exists st : Executor_ErrCode,
        st <> status_Success Executor_ErrCode /\
        VMResult (snd (runExecutor vm)) =
          Result_setErrCode (status_code Executor_ErrCode st)
            (Result_setStage Stage_Executor (VMResult vm))) \/
     (VMResult (snd (runExecutor vm)) =
        Result_setStage Stage_Executor (VMResult vm) /\
      Result_hasError (VMResult (snd (runExecutor vm))) = true)).
Proof.
  pose proof Failed_not_Success as Hne.
  unfold runExecutor. run_driver; repeat split; auto; try congruence;
    intros _; eauto.
Qed.

Lemma runLoader_frame (vm : VM) :
  (fst (runLoader vm) = Success \/ fst (runLoader vm) = Failed) /\
  ExecutorEngine (snd (runLoader vm)) = ExecutorEngine vm /\
  (fst (runLoader vm) = Success ->
     VMResult (snd (runLoader vm)) = Result_setStage Stage_Loader (VMResult vm)).
Proof.
  pose proof Failed_not_Success as Hne.
  unfold runLoader. run_driver; repeat split; auto; try congruence.
Qed.

Lemma runExecutor_frame (vm : VM) :
  (fst (runExecutor vm) = Success \/ fst (runExecutor vm) = Failed) /\
  LoaderEngine (snd (runExecutor vm)) = LoaderEngine vm /\
  (fst (runExecutor vm) = Success ->
     VMResult (snd (runExecutor vm)) =
       Result_setStage Stage_Executor (VMResult vm) /\
     Result_hasError (VMResult (snd (runExecutor vm))) = false).
Proof.
  pose proof Failed_not_Success as Hne.
  unfold runExecutor. run_driver; repeat split; auto; try congruence.
Qed.

Lemma execute_unfold (vm : VM) :
  execute setHostFunction vm =
    let vm1 := snd (prepareVMHost setHostFunction vm) in
    let r := runLoader vm1 in
    let r' := if ErrCode_eq_dec (fst r) Success
              then runExecutor (snd r) else r in
    (fst r', clear_engines (snd r')).
Proof.
  unfold execute. destruct (prepareVMHost _ vm) as [st0 vm1]. simpl.
  destruct (runLoader vm1) as [st vm2]. simpl.
  destruct (ErrCode_eq_dec st Success); [|reflexivity].
  now destruct (runExecutor vm2).
Qed.

(** X20: whatever happens, [execute] returns [Success] or [Failed] and
    leaves no module, no arguments, and both engines reset; the status is
    [Success] exactly when [runLoader], on the state [prepareVMHost] left,
    and [runExecutor] after it both returned [Success]: the status of
    [prepareVMHost] plays no part. *)
Theorem execute_clears (vm : VM) :
  (fst (execute setHostFunction vm) = Success \/
   fst (execute setHostFunction vm) = Failed) /\
  Mod (snd (execute setHostFunction vm)) = None /\
  Args (snd (execute setHostFunction vm)) = [] /\
  (exists l, LoaderEngine (snd (execute setHostFunction vm)) = Loader_reset l) /\
  (exists e, ExecutorEngine (snd (execute setHostFunction vm)) = Executor_reset e) /\
  (fst (execute setHostFunction vm) = Success <->
     fst (runLoader (snd (prepareVMHost setHostFunction vm))) = Success /\
     fst (runExecutor
            (snd (runLoader (snd (prepareVMHost setHostFunction vm)))))
       = Success).
Proof.
  rewrite execute_unfold. cbv zeta.
  set (vm1 := snd (prepareVMHost setHostFunction vm)).
  destruct (runLoader_frame vm1) as (Hl & _).
  destruct (runExecutor_frame (snd (runLoader vm1))) as (He & _).
  destruct (ErrCode_eq_dec (fst (runLoader vm1)) Success) as [E|E]; simpl.
  - repeat split; eauto; tauto.
  - repeat split; eauto; tauto.
Qed.

(** X21: the executor runs only after a loader that succeeded. When
    [runLoader] does not return [Success], [execute] returns the loader's
    status, the executor engine is the one [prepareVMHost] left, reset, and
    the result record is the one [runLoader] left, its stage the loader's
    still. *)
Theorem execute_skips_executor (vm : VM) :
  fst (runLoader (snd (prepareVMHost setHostFunction vm))) <> Success ->
  fst (execute setHostFunction vm) =
    fst (runLoader (snd (prepareVMHost setHostFunction vm))) /\
  ExecutorEngine (snd (execute setHostFunction vm)) =
    Executor_reset (ExecutorEngine (snd (prepareVMHost setHostFunction vm))) /\
  VMResult (snd (execute setHostFunction vm)) =
    VMResult (snd (runLoader (snd (prepareVMHost setHostFunction vm)))).
Proof.
  intros Hf. rewrite execute_unfold. cbv zeta.
  set (vm1 := snd (prepareVMHost setHostFunction vm)) in *.
  destruct (runLoader_frame vm1) as (_ & Hx & _).
  destruct (ErrCode_eq_dec (fst (runLoader vm1)) Success) as [E|E];
    [contradiction|]. simpl. now rewrite Hx.
Qed.

(** X22: when [execute] returns [Success], the result record has no error
    and nothing was stored in it but the two stages, the loader's and then
    the executor's. *)
Theorem execute_Success_no_error (vm : VM) :
  fst (execute setHostFunction vm) = Success ->
  Result_hasError (VMResult (snd (execute setHostFunction vm))) = false /\
  VMResult (snd (execute setHostFunction vm)) =
    Result_setStage Stage_Executor
      (Result_setStage Stage_Loader
         (VMResult (snd (prepareVMHost setHostFunction vm)))).
Proof.
  rewrite execute_unfold. cbv zeta.
  set (vm1 := snd (prepareVMHost setHostFunction vm)).
  destruct (runLoader_frame vm1) as (_ & _ & Hl).
  destruct (runExecutor_frame (snd (runLoader vm1))) as (_ & _ & He).
  destruct (ErrCode_eq_dec (fst (runLoader vm1)) Success) as [E|E]; simpl.
  - intros E'. destruct (He E') as [Hr Hh]. split; [exact Hh|].
    now rewrite Hr, (Hl E).
  - intros E'. contradiction.
Qed.

Lemma register_failed (l : list (HostFunction * (String.string * String.string)))
    (st : ErrCode) (vm : VM) :
  st <> Success ->
  fold_left (register setHostFunction) l (st, vm) = (st, vm).
Proof.
  intros Hst. induction l as [|e l IH]; [reflexivity|]. simpl.
  unfold register at 2. simpl.
  destruct (ErrCode_eq_dec st Success); [contradiction|apply IH].
Qed.

(** X23: a registration that fails ends the registrations. When the
    functions before an entry of the table of the configured VM type were
    registered with [Success] and [setHostFunction] returns another status
    for that entry, [prepareVMHost] returns this status and the state that
    call left: no later function is registered. *)
Theorem prepareVMHost_stops_at_failure (vm vm1 vm2 : VM) (st : ErrCode)
    (before after : list (HostFunction * (String.string * String.string)))
    (entry : HostFunction * (String.string * String.string)) :
  (Configure_getVMType (Config vm) = Ewasm /\
   EEI_functions = before ++ entry :: after) \/
  (Configure_getVMType (Config vm) <> Ewasm /\
   Configure_getVMType (Config vm) = Wasi /\
   Wasi_functions = before ++ entry :: after) ->
  fold_left (register setHostFunction) before (Success, vm) = (Success, vm1) ->
  setHostFunction (fst entry) (fst (snd entry)) (snd (snd entry)) vm1
    = (st, vm2) ->
  st <> Success ->
  prepareVMHost setHostFunction vm = (st, vm2).
Proof.
  intros Htab Hbefore Hcall Hst.
  assert (Hrun : fold_left (register setHostFunction)
                   (before ++ entry :: after) (Success, vm) = (st, vm2)).
  { rewrite fold_left_app, Hbefore. simpl. unfold register at 2. simpl.
    destruct (ErrCode_eq_dec Success Success); [|contradiction].
    rewrite Hcall. now apply register_failed. }
  unfold prepareVMHost.
  destruct Htab as [[Ht Htab]|(Hn & Ht & Htab)].
  - destruct (VMType_eq_dec _ Ewasm); [|contradiction]. now rewrite Htab.
  - destruct (VMType_eq_dec _ Ewasm); [contradiction|].
    destruct (VMType_eq_dec _ Wasi); [|contradiction]. now rewrite Htab.
Qed.

End driver_facts.
(** *** An instance

    Engines that log the calls they receive, with status codes in [Z] (0
    is [Success]); the stage numbered [bad] returns status 7. *)

Section toy.
Import Stdlib.Strings.String.StringSyntax.
Local Open Scope string_scope.

Definition Z_status : StatusEnum := Build_StatusEnum Z 0 Z.eq_dec (fun z => z).

Definition toy_status (bad stage : nat) : Z := if Nat.eqb stage bad then 7 else 0.

Definition toy (bad : nat) : Collaborators :=
  {| ErrCode := bool;
     Success := true;
     Failed := false;
     ErrCode_eq_dec := Bool.bool_dec;
     Failed_not_Success := Bool.diff_false_true;
     Configure := nat;
     VMType := nat;
     Ewasm := 0%nat;
     Wasi := 1%nat;
     VMType_eq_dec := Nat.eq_dec;
     Configure_getVMType := fun c => c;
     Configure_getStartFuncName := fun _ => "_start";
     Result := list Z;
     Stage := bool;
     Stage_Loader := false;
     Stage_Executor := true;
     Result_setStage := fun _ r => r;
     Result_setErrCode := fun c r => c :: r;
     Result_hasError := fun r => if r is [] then false else true;
     AstModule := nat;
     Loader := list String.string;
     Loader_ErrCode := Z_status;
     Loader_setPath := fun p l => (toy_status bad 1, (l ++ ["setPath"])%list);
     Loader_parseModule := fun l => (toy_status bad 2, (l ++ ["parseModule"])%list);
     Loader_validateModule :=
       fun l => (toy_status bad 3, (l ++ ["validateModule"])%list);
     Loader_getModule :=
       fun m l => (toy_status bad 4, ((l ++ ["getModule"])%list, Some 1%nat));
     Loader_reset := fun l => (l ++ ["reset"])%list;
     Arg := Z;
     Executor := list String.string;
     Executor_ErrCode := Z_status;
     Executor_setStartFuncName := fun n e => (e ++ [n])%list;
     Executor_setModule :=
       fun m e => (toy_status bad 5, ((e ++ ["setModule"])%list, None));
     Executor_instantiate :=
       fun e => (toy_status bad 6, (e ++ ["instantiate"])%list);
     Executor_setArgs :=
       fun a e => (toy_status bad 7, ((e ++ ["setArgs"])%list, a));
     Executor_run := fun e => (toy_status bad 8, (e ++ ["run"])%list);
     Executor_reset := fun e => (e ++ ["reset"])%list |}.

(** A registry that refuses [EEIGetCaller] and logs the other names with
    the executor. *)
Definition toy_setHostFunction (bad : nat) (f : HostFunction)
    (m n : String.string) (vm : @VM (toy bad)) : bool * @VM (toy bad) :=
  match f with
  | EEIGetCaller => (false, vm)
  | _ => (true, @set_ExecutorEngine (toy bad)
                  (@ExecutorEngine (toy bad) vm ++ [n])%list vm)
  end.

Definition toy_vm (bad type : nat) : @VM (toy bad) :=
  @Build_VM (toy bad) type "a.wasm" [] [] None [1; 2] [].

Lemma execute_skips_executor_witness :
  fst (@execute (toy 2) (toy_setHostFunction 2) (toy_vm 2 5)) =
    fst (@runLoader (toy 2)
           (snd (@prepareVMHost (toy 2) (toy_setHostFunction 2) (toy_vm 2 5)))) /\
  @ExecutorEngine (toy 2)
    (snd (@execute (toy 2) (toy_setHostFunction 2) (toy_vm 2 5))) =
    @Executor_reset (toy 2)
      (@ExecutorEngine (toy 2)
         (snd (@prepareVMHost (toy 2) (toy_setHostFunction 2) (toy_vm 2 5)))) /\
  @VMResult (toy 2)
    (snd (@execute (toy 2) (toy_setHostFunction 2) (toy_vm 2 5))) =
    @VMResult (toy 2)
      (snd (@runLoader (toy 2)
              (snd (@prepareVMHost (toy 2) (toy_setHostFunction 2)
                      (toy_vm 2 5))))).
Proof.
  apply (@execute_skips_executor (toy 2) (toy_setHostFunction 2) (toy_vm 2 5)).
  vm_compute. discriminate.
Defined.

(** The run the instance above is about: the loader stops at
    [parseModule], whose status 7 is stored, and the executor engine sees
    its [reset] only. *)
Lemma execute_parse_failure_run :
  @execute (toy 2) (toy_setHostFunction 2) (toy_vm 2 5) =
    (false,
     @Build_VM (toy 2) 5%nat "a.wasm" ["setPath"; "parseModule"; "reset"]
       ["reset"] None [] [7]).
Proof. reflexivity. Qed.

Lemma execute_Success_no_error_witness :
  @Result_hasError (toy 0)
    (@VMResult (toy 0)
       (snd (@execute (toy 0) (toy_setHostFunction 0) (toy_vm 0 1)))) = false /\
  @VMResult (toy 0)
    (snd (@execute (toy 0) (toy_setHostFunction 0) (toy_vm 0 1))) =
    @Result_setStage (toy 0) (@Stage_Executor (toy 0))
      (@Result_setStage (toy 0) (@Stage_Loader (toy 0))
         (@VMResult (toy 0)
            (snd (@prepareVMHost (toy 0) (toy_setHostFunction 0)
                    (toy_vm 0 1))))).
Proof.
  apply (@execute_Success_no_error (toy 0) (toy_setHostFunction 0) (toy_vm 0 1)).
  reflexivity.
Defined.

Lemma prepareVMHost_stops_at_failure_witness :
  @prepareVMHost (toy 0) (toy_setHostFunction 0) (toy_vm 0 0) =
    (false,
     @set_ExecutorEngine (toy 0)
       ["callDataCopy"; "callStatic"; "finish"; "getCallDataSize"]
       (toy_vm 0 0)).
Proof.
  apply (@prepareVMHost_stops_at_failure (toy 0) (toy_setHostFunction 0)
           (toy_vm 0 0)
           (@set_ExecutorEngine (toy 0)
              ["callDataCopy"; "callStatic"; "finish"; "getCallDataSize"]
              (toy_vm 0 0))
           _ false
           (take 4 EEI_functions) (drop 5 EEI_functions)
           (EEIGetCaller, ("ethereum", "getCaller"))).
  - left. split; reflexivity.
  - reflexivity.
  - reflexivity.
  - discriminate.
Defined.

End toy.

End VM_facts.
